(** * The events module of miniflare: fetch and scheduled dispatch

    A shallow embedding of [src/modules/events.ts]: the two event classes
    with their side tables ([responseMap], [passThroughMap], [waitUntilMap]),
    the listener registry of [EventsModule], the two adapters for
    module-style handlers, and the two dispatch algorithms.

    Conventions of the embedding.
    - Objects with identity (events) are natural numbers allocated from a
      counter of the [Store]; the three WeakMaps of the source are finite
      maps keyed by that identity, shared by every dispatch.
    - A promise is described by how it settles: at what time, and with a
      value or an error, or never. [await] on it yields a [Completion].
    - User code (listeners, module handlers) is the environment of the
      module. A listener is the list of calls it makes on the event it is
      handed during its synchronous run, possibly ending in a [Throw]. A
      call made later, through a reference to the event that was kept, is
      the method of the event class applied to the store of that time.
    - Everything observable that a dispatch does besides its result (log
      warnings, the upstream fetch, the effects of listeners, and a marker
      for each call [listener(event)]) is appended to the [trace]. *)

From Stdlib Require Import ZArith Ascii String.
From stdpp Require Import gmap strings list fin_maps.

Local Open Scope string_scope.
Local Open Scope nat_scope.
Local Open Scope list_scope.
Local Open Scope stdpp_scope.

(** ** JavaScript values, errors, promises *)

(** The values that flow through [any]-typed positions: results of
    background tasks and thrown values. *)
Inductive Value :=
| VUndefined
| VNull
| VNumber (n : Z)
| VString (s : string)
| VError (name message : string)
| VFetchError (message type : string).

Definition TypeError (message : string) : Value := VError "TypeError" message.
Definition AssertionError (message : string) : Value :=
  VError "AssertionError" message.

(** First line of the [stack] of an error object. *)
Definition stack_of (name message : string) : string :=
  name +:+ ": " +:+ message.

(** The property read [e.stack]: [inl] is the value read, [inr] the
    TypeError raised when [e] is [undefined] or [null]. *)
Definition get_stack (e : Value) : Value + Value :=
  match e with
  | VUndefined =>
      inr (TypeError "Cannot read properties of undefined (reading 'stack')")
  | VNull =>
      inr (TypeError "Cannot read properties of null (reading 'stack')")
  | VNumber _ | VString _ => inl VUndefined
  | VError name message => inl (VString (stack_of name message))
  | VFetchError message _ => inl (VString (stack_of "FetchError" message))
  end.

(** How a computation that is awaited ends. *)
Inductive Completion (A : Type) :=
| Returns (v : A)
| Throws (e : Value)
| Hangs.
Arguments Returns {A} v.
Arguments Throws {A} e.
Arguments Hangs {A}.

Inductive Settlement (A : Type) :=
| Fulfilled (v : A)
| Rejected (e : Value).
Arguments Fulfilled {A} v.
Arguments Rejected {A} e.

Inductive Promise (A : Type) :=
| Settles (time : nat) (r : Settlement A)
| Pending.
Arguments Settles {A} time r.
Arguments Pending {A}.

(** An argument of type [A | Promise<A>]. *)
Inductive Awaitable (A : Type) :=
| Plain (v : A)
| Thenable (p : Promise A).
Arguments Plain {A} v.
Arguments Thenable {A} p.

(** [Promise.resolve(x)]: a promise is returned as it is, a plain value
    gives a promise that is already fulfilled. *)
Definition Promise_resolve {A} (x : Awaitable A) : Promise A :=
  match x with
  | Plain v => Settles 0 (Fulfilled v)
  | Thenable p => p
  end.

(** [await p]. *)
Definition await {A} (p : Promise A) : Completion A :=
  match p with
  | Settles _ (Fulfilled v) => Returns v
  | Settles _ (Rejected e) => Throws e
  | Pending => Hangs
  end.

(** *** [Promise.all]

    Called at time [now] on the elements [ps]. Every element is subscribed
    to in index order, so an element settled at time [t] is observed at
    time [max now t], and among elements observed at the same time the
    one of lower index is observed first. The aggregate rejects with the
    first rejection observed; it fulfils, with the values in index order,
    once every element has fulfilled. *)

Definition observed (now : nat) (t : nat) : nat := Nat.max now t.

Fixpoint first_rejection {A} (now : nat) (ps : list (Promise A))
    (best : option (nat * Value)) : option (nat * Value) :=
  match ps with
  | [] => best
  | Settles t (Rejected e) :: ps' =>
      let t' := observed now t in
      first_rejection now ps'
        (match best with
         | Some (tb, _) => if t' <? tb then Some (t', e) else best
         | None => Some (t', e)
         end)
  | _ :: ps' => first_rejection now ps' best
  end.

Fixpoint all_fulfilled {A} (ps : list (Promise A)) : option (list A) :=
  match ps with
  | [] => Some []
  | Settles _ (Fulfilled v) :: ps' =>
      match all_fulfilled ps' with
      | Some vs => Some (v :: vs)
      | None => None
      end
  | _ :: _ => None
  end.

(** [await Promise.all(ps)], the call made at time [now]. *)
Definition Promise_all {A} (now : nat) (ps : list (Promise A))
    : Completion (list A) :=
  match first_rejection now ps None with
  | Some (_, e) => Throws e
  | None =>
      match all_fulfilled ps with
      | Some vs => Returns vs
      | None => Hangs
      end
  end.

(** ** Requests and responses of the fetch library *)

Definition ascii_lower (c : ascii) : ascii :=
  let n := nat_of_ascii c in
  if (65 <=? n) && (n <=? 90) then ascii_of_nat (n + 32) else c.

Fixpoint lower (s : string) : string :=
  match s with
  | EmptyString => EmptyString
  | String c s' => String (ascii_lower c) (lower s')
  end.

(** Header names are compared without regard to case. *)
Definition same_header (a b : string) : bool :=
  bool_decide (lower a = lower b).

Definition Headers := list (string * string).

Definition Headers_delete (name : string) (h : Headers) : Headers :=
  List.filter (fun kv => negb (same_header kv.1 name)) h.

Definition Headers_set (name value : string) (h : Headers) : Headers :=
  Headers_delete name h ++ [(name, value)].

Definition Headers_has (name : string) (h : Headers) : bool :=
  existsb (fun kv => same_header kv.1 name) h.

Record Request := {
  url : string;
  method : string;
  headers : Headers;
  body : string;
}.

Definition Request_with_headers (h : Headers) (r : Request) : Request :=
  {| url := url r; method := method r; headers := h; body := body r |}.

(** [request.clone()]: a new request object with a copy of every part. *)
Definition Request_clone (r : Request) : Request :=
  {| url := url r; method := method r; headers := headers r; body := body r |}.

Record Response := {
  status : Z;
  text : string;
}.

Definition URL := string.
Definition Context := gmap string Value.

Global Instance Request_inhabited : Inhabited Request :=
  populate {| url := EmptyString; method := "GET"; headers := [];
              body := EmptyString |}.

(** ** The store: event identities, side tables, trace *)

Inductive Obs :=
| ObsListener (type : string) (index : nat)
| ObsEffect (tag : string)
| ObsWarn (message : Value)
| ObsFetch (request : Request).

Record Store := {
  next_event : nat;
  event_request : gmap nat Request;
  responseMap : gmap nat (Promise Response);
  passThroughMap : gmap nat bool;
  waitUntilMap : gmap nat (list (Promise Value));
  trace : list Obs;
}.

Definition empty_store : Store :=
  {| next_event := 0; event_request := ∅; responseMap := ∅;
     passThroughMap := ∅; waitUntilMap := ∅; trace := [] |}.

Definition set_event_request (m : gmap nat Request) (s : Store) : Store :=
  {| next_event := next_event s; event_request := m;
     responseMap := responseMap s; passThroughMap := passThroughMap s;
     waitUntilMap := waitUntilMap s; trace := trace s |}.

Definition set_responseMap (m : gmap nat (Promise Response)) (s : Store)
    : Store :=
  {| next_event := next_event s; event_request := event_request s;
     responseMap := m; passThroughMap := passThroughMap s;
     waitUntilMap := waitUntilMap s; trace := trace s |}.

Definition set_passThroughMap (m : gmap nat bool) (s : Store) : Store :=
  {| next_event := next_event s; event_request := event_request s;
     responseMap := responseMap s; passThroughMap := m;
     waitUntilMap := waitUntilMap s; trace := trace s |}.

Definition set_waitUntilMap (m : gmap nat (list (Promise Value))) (s : Store)
    : Store :=
  {| next_event := next_event s; event_request := event_request s;
     responseMap := responseMap s; passThroughMap := passThroughMap s;
     waitUntilMap := m; trace := trace s |}.

Definition log (o : Obs) (s : Store) : Store :=
  {| next_event := next_event s; event_request := event_request s;
     responseMap := responseMap s; passThroughMap := passThroughMap s;
     waitUntilMap := waitUntilMap s; trace := trace s ++ [o] |}.

(** [this.log.warn(message)]. *)
Definition log_warn (message : Value) (s : Store) : Store :=
  log (ObsWarn message) s.

(** ** The event classes *)

Module FetchEvent.

(** [new FetchEvent(request)]: a fresh identity, the [request] field, and
    [waitUntilMap.set(this, [])]. *)
Definition new (request : Request) (s : Store) : nat * Store :=
  let this := next_event s in
  (this,
   {| next_event := S this;
      event_request := <[this := request]> (event_request s);
      responseMap := responseMap s;
      passThroughMap := passThroughMap s;
      waitUntilMap := <[this := []]> (waitUntilMap s);
      trace := trace s |}).

(** The mutable request object the field [request] refers to. *)
Definition request (this : nat) (s : Store) : Request :=
  event_request s !!! this.

Definition respondWith (this : nat) (response : Awaitable Response)
    (s : Store) : Store :=
  set_responseMap (<[this := Promise_resolve response]> (responseMap s)) s.

Definition passThroughOnException (this : nat) (s : Store) : Store :=
  set_passThroughMap (<[this := true]> (passThroughMap s)) s.

(** [waitUntilMap.get(this)?.push(promise)] *)
Definition waitUntil (this : nat) (promise : Promise Value) (s : Store)
    : Store :=
  set_waitUntilMap
    (alter (fun ps => ps ++ [promise]) this (waitUntilMap s)) s.

End FetchEvent.

Module ScheduledEvent.

(** [new ScheduledEvent(scheduledTime, cron)]: a fresh identity and
    [waitUntilMap.set(this, [])]. The two fields are read-only primitives:
    they are not kept in the store, listeners are handed them in a
    [ScheduledView]. *)
Definition new (scheduledTime : nat) (cron : string) (s : Store)
    : nat * Store :=
  let this := next_event s in
  (this,
   {| next_event := S this;
      event_request := event_request s;
      responseMap := responseMap s;
      passThroughMap := passThroughMap s;
      waitUntilMap := <[this := []]> (waitUntilMap s);
      trace := trace s |}).

Definition waitUntil (this : nat) (promise : Promise Value) (s : Store)
    : Store :=
  set_waitUntilMap
    (alter (fun ps => ps ++ [promise]) this (waitUntilMap s)) s.

End ScheduledEvent.

(** The engine's reads of the side tables. [passThroughMap.get(event)] is
    used as a condition: a missing entry is [undefined], which is falsy. *)
Definition passThrough_granted (event : nat) (s : Store) : bool :=
  default false (passThroughMap s !! event).

(** ** Listeners *)

(** What a listener is handed when it reads the fields of its event. *)
Inductive EventView :=
| FetchView (request : Request)
| ScheduledView (scheduledTime : nat) (cron : string).

(** The calls a listener can make during its synchronous run. *)
Inductive Action :=
| CallRespondWith (response : Awaitable Response)
| CallPassThroughOnException
| CallWaitUntil (promise : Promise Value)
| SetRequestHeader (name value : string)
| Effect (tag : string)
| Throw (e : Value).

Definition Listener := EventView -> list Action.

(** One call on the event [event]; [on_fetch] tells whether the event is a
    [FetchEvent]. A [ScheduledEvent] has neither [respondWith] nor
    [passThroughOnException] nor [request]: using them there raises a
    TypeError. The second component is the value thrown, if any. *)
Definition run_action (on_fetch : bool) (event : nat) (a : Action) (s : Store)
    : Store * option Value :=
  match a with
  | CallRespondWith r =>
      if on_fetch then (FetchEvent.respondWith event r s, None)
      else (s, Some (TypeError "e.respondWith is not a function"))
  | CallPassThroughOnException =>
      if on_fetch then (FetchEvent.passThroughOnException event s, None)
      else (s, Some (TypeError "e.passThroughOnException is not a function"))
  | CallWaitUntil p =>
      if on_fetch then (FetchEvent.waitUntil event p s, None)
      else (ScheduledEvent.waitUntil event p s, None)
  | SetRequestHeader name value =>
      if on_fetch then
        (set_event_request
           (alter (fun r => Request_with_headers
                              (Headers_set name value (headers r)) r)
                  event (event_request s)) s, None)
      else
        (s, Some (TypeError
                    "Cannot read properties of undefined (reading 'headers')"))
  | Effect tag => (log (ObsEffect tag) s, None)
  | Throw e => (s, Some e)
  end.

(** The synchronous run of a listener: its calls in order, up to the first
    one that throws. *)
Fixpoint run_actions (on_fetch : bool) (event : nat) (acts : list Action)
    (s : Store) : Store * option Value :=
  match acts with
  | [] => (s, None)
  | a :: acts' =>
      match run_action on_fetch event a s with
      | (s', Some e) => (s', Some e)
      | (s', None) => run_actions on_fetch event acts' s'
      end
  end.

(** ** The events module *)

Record EventsModule := {
  _listeners : gmap string (list Listener);
}.

(** [_listeners = {}] *)
Definition new_EventsModule : EventsModule := {| _listeners := ∅ |}.

(** [_listeners] is an object literal, so the names of the properties of
    [Object.prototype] are found in it by [in] and by property reads. *)
Definition Object_prototype_keys : list string :=
  [ "constructor"; "__defineGetter__"; "__defineSetter__"; "hasOwnProperty";
    "__lookupGetter__"; "__lookupSetter__"; "isPrototypeOf";
    "propertyIsEnumerable"; "toString"; "valueOf"; "__proto__";
    "toLocaleString" ].

(** [type in o] *)
Definition has_property (type : string) (o : gmap string (list Listener))
    : bool :=
  bool_decide (is_Some (o !! type))
  || bool_decide (type ∈ Object_prototype_keys).

Definition dq : string := String "034"%char EmptyString.

Definition invalid_type_message (type : string) : string :=
  "Invalid event type: expected " +:+ dq +:+ "fetch" +:+ dq +:+ " | "
  +:+ dq +:+ "scheduled" +:+ dq +:+ ", got " +:+ dq +:+ type +:+ dq.

(** [type !== "fetch" && type !== "scheduled"] *)
Definition unrecognized (type : string) : bool :=
  bool_decide (type ≠ "fetch") && bool_decide (type ≠ "scheduled").

(** [addEventListener(type, listener)]. When [type] is only found on the
    prototype, what is read is not an array and [push] is not a function. *)
Definition addEventListener (type : string) (listener : Listener)
    (this : EventsModule) (s : Store)
    : Completion unit * EventsModule * Store :=
  let s1 :=
    if unrecognized type
    then log_warn (VString (invalid_type_message type)) s
    else s in
  let o :=
    if negb (has_property type (_listeners this))
    then <[type := []]> (_listeners this)
    else _listeners this in
  match o !! type with
  | Some arr =>
      (Returns (), {| _listeners := <[type := arr ++ [listener]]> o |}, s1)
  | None =>
      (Throws (TypeError "this._listeners[type].push is not a function"),
       {| _listeners := o |}, s1)
  end.

Definition resetEventListeners (this : EventsModule) : EventsModule :=
  {| _listeners := ∅ |}.

(** *** Adapters for module-style handlers *)

(** The calls a module handler can make through the objects it is handed:
    the restricted context and, for a fetch handler, the request. *)
Inductive CtxAction :=
| CtxPassThroughOnException
| CtxWaitUntil (promise : Promise Value)
| CtxSetRequestHeader (name value : string)
| CtxEffect (tag : string)
| CtxThrow (e : Value).

Record Controller := {
  scheduledTime : nat;
  cron : string;
}.

(** A handler: the calls of its synchronous run and what it returns. The
    return value is not reached when one of the calls throws. *)
Definition ModuleFetchListener :=
  Request -> Context -> list CtxAction * Awaitable Response.
Definition ModuleScheduledListener :=
  Controller -> Context -> list CtxAction * Awaitable Value.

(** [ctx] of a fetch handler holds the event's [passThroughOnException]
    and [waitUntil], bound to the event. *)
Definition fetch_ctx_action (a : CtxAction) : Action :=
  match a with
  | CtxPassThroughOnException => CallPassThroughOnException
  | CtxWaitUntil p => CallWaitUntil p
  | CtxSetRequestHeader name value => SetRequestHeader name value
  | CtxEffect tag => Effect tag
  | CtxThrow e => Throw e
  end.

(** [ctx] of a scheduled handler holds [waitUntil] only, and the
    controller has no request. *)
Definition scheduled_ctx_action (a : CtxAction) : Action :=
  match a with
  | CtxPassThroughOnException =>
      Throw (TypeError "ctx.passThroughOnException is not a function")
  | CtxWaitUntil p => CallWaitUntil p
  | CtxSetRequestHeader _ _ =>
      Throw (TypeError
               "Cannot read properties of undefined (reading 'headers')")
  | CtxEffect tag => Effect tag
  | CtxThrow e => Throw e
  end.

(** The closure that [addModuleFetchListener] registers. *)
Definition module_fetch_listener (listener : ModuleFetchListener)
    (environment : Context) : Listener :=
  fun e =>
    match e with
    | FetchView request =>
        let '(calls, res) := listener request environment in
        map fetch_ctx_action calls ++ [CallRespondWith res]
    | ScheduledView _ _ =>
        (* [e.passThroughOnException.bind(e)] on an event without it *)
        [Throw (TypeError
                  "Cannot read properties of undefined (reading 'bind')")]
    end.

Definition addModuleFetchListener (listener : ModuleFetchListener)
    (environment : Context) (this : EventsModule) (s : Store)
    : Completion unit * EventsModule * Store :=
  addEventListener "fetch" (module_fetch_listener listener environment)
    this s.

(** The closure that [addModuleScheduledListener] registers. It is stored
    under "scheduled" and so is only ever called on a [ScheduledEvent]; the
    other case, where the reads of [cron] and [scheduledTime] would give
    [undefined], is not reachable and makes no call. *)
Definition module_scheduled_listener (listener : ModuleScheduledListener)
    (environment : Context) : Listener :=
  fun e =>
    match e with
    | ScheduledView t c =>
        let controller := {| cron := c; scheduledTime := t |} in
        let '(calls, res) := listener controller environment in
        map scheduled_ctx_action calls
          ++ [CallWaitUntil (Promise_resolve res)]
    | FetchView _ => []
    end.

Definition addModuleScheduledListener (listener : ModuleScheduledListener)
    (environment : Context) (this : EventsModule) (s : Store)
    : Completion unit * EventsModule * Store :=
  addEventListener "scheduled"
    (module_scheduled_listener listener environment) this s.

(** *** Dispatch *)

(** The closure [waitUntil] of [dispatchFetch], lifted over the [event] it
    captures, and the last three lines of [dispatchScheduled]. *)
Definition await_waitUntil (event : nat) (now : nat) (s : Store)
    : Completion (list Value) :=
  match waitUntilMap s !! event with
  | None =>
      Throws (AssertionError "The expression evaluated to a falsy value")
  | Some waitUntilPromises => Promise_all now waitUntilPromises
  end.

(** A response with the accessor attached to it: what a dispatch hands to
    its caller, the object as it is right after the assignment of
    [response.waitUntil]. The record does not follow the object
    afterwards: were the same object returned by a later dispatch, that
    assignment would replace the accessor on it. *)
Record ResponseWaitUntil := {
  response : Response;
  waitUntil : nat -> Store -> Completion (list Value);
}.

Definition no_upstream_error : Value :=
  VFetchError
    ("No fetch handler responded and unable to proxy request to upstream: "
     +:+ "no upstream specified. "
     +:+ "Have you added a fetch event listener that responds with a Response?")
    "upstream".

(** How the loop over the fetch listeners is left. *)
Inductive LoopExit :=
| ExitReturn (r : Response)
| ExitThrow (e : Value)
| ExitHang
| ExitFallback.

(** The [catch] block of the loop. *)
Definition on_failure (event : nat) (e : Value) (s : Store)
    : LoopExit * Store :=
  if passThrough_granted event s then
    match get_stack e with
    | inl stack => (ExitFallback, log_warn stack s)
    | inr type_error => (ExitThrow type_error, s)
    end
  else (ExitThrow e, s).

(** The loop of [dispatchFetch] from the listener of index [index] on. A
    response that was awaited is an object, hence truthy. *)
Fixpoint fetch_listeners (event : nat) (ls : list Listener) (index : nat)
    (s : Store) : LoopExit * Store :=
  match ls with
  | [] => (ExitFallback, s)
  | listener :: ls' =>
      let s0 := log (ObsListener "fetch" index) s in
      let e := FetchView (FetchEvent.request event s0) in
      match run_actions true event (listener e) s0 with
      | (s1, Some err) => on_failure event err s1
      | (s1, None) =>
          match responseMap s1 !! event with
          | None => fetch_listeners event ls' (S index) s1
          | Some p =>
              match await p with
              | Returns r => (ExitReturn r, s1)
              | Throws err => on_failure event err s1
              | Hangs => (ExitHang, s1)
              end
          end
      end
  end.

(** The loop of [dispatchScheduled]: no [try], so the first listener that
    throws ends it. *)
Fixpoint scheduled_listeners (event : nat) (e : EventView)
    (ls : list Listener) (index : nat) (s : Store) : Store * option Value :=
  match ls with
  | [] => (s, None)
  | listener :: ls' =>
      let s0 := log (ObsListener "scheduled" index) s in
      match run_actions false event (listener e) s0 with
      | (s1, Some err) => (s1, Some err)
      | (s1, None) => scheduled_listeners event e ls' (S index) s1
      end
  end.

Section Dispatch.

(** The [fetch] of the library: the network. *)
Variable fetch : Request -> Promise Response.

(** [dispatchFetch(request, upstreamUrl)]. The result comes with the
    state in which the caller's [request] object is left. *)
Definition dispatchFetch (this : EventsModule) (request : Request)
    (upstreamUrl : option URL) (s : Store)
    : Completion ResponseWaitUntil * Request * Store :=
  let '(event, s0) := FetchEvent.new (Request_clone request) s in
  let waitUntil := await_waitUntil event in
  match fetch_listeners event (default [] (_listeners this !! "fetch")) 0 s0
  with
  | (ExitReturn r, s1) =>
      (Returns {| response := r; waitUntil := waitUntil |}, request, s1)
  | (ExitThrow e, s1) => (Throws e, request, s1)
  | (ExitHang, s1) => (Hangs, request, s1)
  | (ExitFallback, s1) =>
      match upstreamUrl with
      | None => (Throws no_upstream_error, request, s1)
      | Some _ =>
          let request' :=
            Request_with_headers (Headers_delete "host" (headers request))
              request in
          let s2 := log (ObsFetch request') s1 in
          match await (fetch request') with
          | Returns r =>
              (Returns {| response := r; waitUntil := waitUntil |},
               request', s2)
          | Throws e => (Throws e, request', s2)
          | Hangs => (Hangs, request', s2)
          end
      end
  end.

(** [dispatchScheduled(scheduledTime, cron)], called at time [now]. *)
Definition dispatchScheduled (this : EventsModule)
    (scheduledTime : option nat) (cron : option string) (now : nat)
    (s : Store) : Completion (list Value) * Store :=
  let scheduledTime := default now scheduledTime in
  let cron := default EmptyString cron in
  let '(event, s0) := ScheduledEvent.new scheduledTime cron s in
  let e := ScheduledView scheduledTime cron in
  match scheduled_listeners event e
          (default [] (_listeners this !! "scheduled")) 0 s0
  with
  | (s1, Some err) => (Throws err, s1)
  | (s1, None) => (await_waitUntil event now s1, s1)
  end.

End Dispatch.

(** ** Reading a listener's calls

    What the statements below say about user code: which call of a run
    throws, which calls are made before that, and what they leave behind. *)

(** What one call throws on an event of the given kind. *)
Definition raises (on_fetch : bool) (a : Action) : option Value :=
  (run_action on_fetch 0 a empty_store).2.

(** The value thrown by a run, if any. *)
Fixpoint thrown_by (on_fetch : bool) (acts : list Action) : option Value :=
  match acts with
  | [] => None
  | a :: acts' =>
      match raises on_fetch a with
      | Some e => Some e
      | None => thrown_by on_fetch acts'
      end
  end.

(** The calls of a run that are made: those before the one that throws. *)
Fixpoint executed (on_fetch : bool) (acts : list Action) : list Action :=
  match acts with
  | [] => []
  | a :: acts' =>
      match raises on_fetch a with
      | Some _ => []
      | None => a :: executed on_fetch acts'
      end
  end.

Definition is_waitUntil (a : Action) : option (Promise Value) :=
  match a with CallWaitUntil p => Some p | _ => None end.

Definition is_respondWith (a : Action) : option (Promise Response) :=
  match a with CallRespondWith r => Some (Promise_resolve r) | _ => None end.

Definition is_passThrough (a : Action) : bool :=
  match a with CallPassThroughOnException => true | _ => false end.

Definition is_effect (a : Action) : option Obs :=
  match a with Effect tag => Some (ObsEffect tag) | _ => None end.

(** The background tasks a run registers, in order. *)
Definition tasks_of (on_fetch : bool) (acts : list Action)
    : list (Promise Value) :=
  omap is_waitUntil (executed on_fetch acts).

(** The response a run on a [FetchEvent] leaves in the response slot: the
    one of its last [respondWith]. *)
Definition response_set_by (acts : list Action) : option (Promise Response) :=
  last (omap is_respondWith (executed true acts)).

(** Whether a run on a [FetchEvent] calls [passThroughOnException]. *)
Definition grants (acts : list Action) : bool :=
  existsb is_passThrough (executed true acts).

Definition effects_of (on_fetch : bool) (acts : list Action) : list Obs :=
  omap is_effect (executed on_fetch acts).

(** The request of a [FetchEvent] after a run on it. *)
Definition request_step (r : Request) (a : Action) : Request :=
  match a with
  | SetRequestHeader name value =>
      Request_with_headers (Headers_set name value (headers r)) r
  | _ => r
  end.

Definition request_after (acts : list Action) (r : Request) : Request :=
  foldl request_step r (executed true acts).

(** The request that the listener after those of [ls] is handed, when the
    event was created around [r] and each listener of [ls] had its turn. *)
Fixpoint request_seen_after (ls : list Listener) (r : Request) : Request :=
  match ls with
  | [] => r
  | l :: ls' => request_seen_after ls' (request_after (l (FetchView r)) r)
  end.

(** The calls of the turn of listener [k] of [ls] in a fetch dispatch whose
    event was created around [r]. *)
Definition turn_calls (ls : list Listener) (r : Request) (k : nat)
    : option (list Action) :=
  match ls !! k with
  | Some l => Some (l (FetchView (request_seen_after (take k ls) r)))
  | None => None
  end.

(** How the turn of a fetch listener ends, read off its calls: it throws,
    or the response it set is awaited, or it set none. *)
Inductive TurnOutcome :=
| Quiet
| Responds (r : Response)
| Fails (e : Value)
| Stalls.

Definition turn_outcome (acts : list Action) : TurnOutcome :=
  match thrown_by true acts with
  | Some e => Fails e
  | None =>
      match response_set_by acts with
      | None => Quiet
      | Some p =>
          match await p with
          | Returns r => Responds r
          | Throws e => Fails e
          | Hangs => Stalls
          end
      end
  end.

(** Whether one of the listeners of [ls], each having its turn on an event
    created around [r], calls [passThroughOnException]. *)
Fixpoint granted_after (ls : list Listener) (r : Request) : bool :=
  match ls with
  | [] => false
  | l :: ls' =>
      grants (l (FetchView r))
      || granted_after ls' (request_after (l (FetchView r)) r)
  end.

(** The tasks that the scheduled listeners of [ls], each handed [e],
    register one after the other. *)
Definition scheduled_tasks (e : EventView) (ls : list Listener)
    : list (Promise Value) :=
  flat_map (fun l => tasks_of false (l e)) ls.

(** What the turns of the scheduled listeners of [ls] add to the trace,
    the first of them having index [index]. *)
Fixpoint scheduled_trace (e : EventView) (index : nat) (ls : list Listener)
    : list Obs :=
  match ls with
  | [] => []
  | l :: ls' =>
      ObsListener "scheduled" index
        :: effects_of false (l e) ++ scheduled_trace e (S index) ls'
  end.

(** The tasks a module handler registers through its context. *)
Definition is_ctx_waitUntil (a : CtxAction) : option (Promise Value) :=
  match a with CtxWaitUntil p => Some p | _ => None end.

Definition ctx_tasks (calls : list CtxAction) : list (Promise Value) :=
  omap is_ctx_waitUntil calls.

(** The indices of the listeners called in a stretch of the trace. *)
Definition is_listener_call (type : string) (o : Obs) : option nat :=
  match o with
  | ObsListener type' index =>
      if bool_decide (type' = type) then Some index else None
  | _ => None
  end.

Definition listener_calls (type : string) (tr : list Obs) : list nat :=
  omap (is_listener_call type) tr.

(** The observations that come from the turn of a listener: the call
    itself and the effects of the listener; no warning, no upstream fetch. *)
Definition turn_obs (o : Obs) : Prop :=
  match o with
  | ObsListener _ _ | ObsEffect _ => True
  | ObsWarn _ | ObsFetch _ => False
  end.

(** What a dispatch started in [s] and ended in [s'] added to the trace. *)
Definition trace_since (s s' : Store) : list Obs :=
  drop (length (trace s)) (trace s').

(** The store is fresh above its counter: no side table knows an identity
    that is yet to be allocated. *)
Definition fresh (s : Store) : Prop :=
  forall i, next_event s <= i ->
    event_request s !! i = None /\ responseMap s !! i = None /\
    passThroughMap s !! i = None /\ waitUntilMap s !! i = None.

(** ** Sample inputs *)

Definition sample_request : Request :=
  {| url := "http://localhost:8787/"; method := "GET";
     headers := [("Host", "localhost:8787"); ("Accept", "text/html")];
     body := EmptyString |}.

Definition ok_response : Response := {| status := 200; text := "ok" |}.
Definition upstream_response : Response :=
  {| status := 200; text := "upstream" |}.

(** A network whose upstream always answers. *)
Definition sample_fetch : Request -> Promise Response :=
  fun _ => Settles 5 (Fulfilled upstream_response).

Definition boom : Value := VError "Error" "boom".

(** A module on which the listeners of [ls] were registered, in order,
    under [type]. *)
Fixpoint register_all (type : string) (ls : list Listener)
    (this : EventsModule) : EventsModule :=
  match ls with
  | [] => this
  | l :: ls' =>
      register_all type ls' (addEventListener type l this empty_store).1.2
  end.

Definition quiet_listener : Listener := fun _ => [Effect "seen"].

Definition responder : Listener :=
  fun _ => [CallWaitUntil (Settles 3 (Fulfilled (VNumber 1)));
            CallRespondWith (Plain ok_response)].

Definition late_listener : Listener := fun _ => [Effect "late"].

Definition responds_then_throws : Listener :=
  fun _ => [CallRespondWith (Plain ok_response); Throw boom].

(** Grants pass-through, then responds with a promise that rejects with
    [err]. *)
Definition grants_then_rejects (err : Value) : Listener :=
  fun _ => [CallPassThroughOnException;
            CallRespondWith (Thenable (Settles 1 (Rejected err)))].

(** Grants pass-through, then throws [err]. *)
Definition grants_then_throws (err : Value) : Listener :=
  fun _ => [CallPassThroughOnException; Throw err].

Definition sample_upstream : URL := "https://miniflare.dev".

(** Sets a header on the request of its event and leaves the response to
    others. *)
Definition marks_request : Listener :=
  fun _ => [SetRequestHeader "x-seen" "1"].

Definition throws_at_once : Listener := fun _ => [Throw boom].

(** Registers a task that will reject, and has an effect. *)
Definition registers_rejecting : Listener :=
  fun _ => [CallWaitUntil (Settles 8 (Rejected boom)); Effect "first"].

(** Registers a task that fulfils early. *)
Definition registers_early : Listener :=
  fun _ => [Effect "second"; CallWaitUntil (Settles 2 (Fulfilled (VNumber 2)))].

(** A module handler for scheduled events: it registers a task that
    settles late through its context and returns a plain value. *)
Definition sample_scheduled_handler : ModuleScheduledListener :=
  fun controller _ =>
    ([CtxWaitUntil (Settles 30 (Fulfilled (VString (cron controller))))],
     Plain (VNumber (Z.of_nat (scheduledTime controller)))).

(** ** Further readings of a dispatch *)

(** The runs of the turns that the loop of a fetch dispatch makes over
    [ls] on an event created around [r]: one turn after the other, up to
    and including the first that is not quiet. *)
Fixpoint turns_run (ls : list Listener) (r : Request) : list (list Action) :=
  match ls with
  | [] => []
  | l :: ls' =>
      let acts := l (FetchView r) in
      acts :: match turn_outcome acts with
              | Quiet => turns_run ls' (request_after acts r)
              | _ => []
              end
  end.

(** The tasks those turns register, in order; a turn that throws counts
    with the tasks it registered before it threw. *)
Definition fetch_tasks (ls : list Listener) (r : Request)
    : list (Promise Value) :=
  flat_map (tasks_of true) (turns_run ls r).

(** No own property of the registry has the name of a property of
    [Object.prototype]. *)
Definition prototype_free (this : EventsModule) : Prop :=
  forall key, key ∈ Object_prototype_keys -> _listeners this !! key = None.

(** What the fallback of [dispatchFetch] sends upstream. *)
Definition without_host (request : Request) : Request :=
  Request_with_headers (Headers_delete "host" (headers request)) request.

(** Whether a module handler asks for pass-through among its calls. *)
Definition is_ctx_passThrough (a : CtxAction) : bool :=
  match a with CtxPassThroughOnException => true | _ => false end.

(** ** Further sample inputs *)

(** Sets two responses in one turn. *)
Definition responds_twice : Listener :=
  fun _ => [CallRespondWith (Plain upstream_response);
            Effect "again";
            CallRespondWith (Thenable (Settles 4 (Fulfilled ok_response)))].

(** Grants pass-through and leaves the response to others. *)
Definition grants_only : Listener := fun _ => [CallPassThroughOnException].

(** Registers a task, then throws. *)
Definition registers_then_throws : Listener :=
  fun _ => [CallWaitUntil (Settles 6 (Fulfilled (VNumber 7))); Throw boom].

(** Responds with a promise that never settles. *)
Definition never_responds : Listener :=
  fun _ => [CallPassThroughOnException; CallRespondWith (Thenable Pending)].

(** A module handler for fetch events: it registers a task through its
    context and answers later. *)
Definition sample_fetch_handler : ModuleFetchListener :=
  fun request _ =>
    ([CtxWaitUntil (Settles 4 (Fulfilled (VString (url request))))],
     Thenable (Settles 2 (Fulfilled ok_response))).

(** A module handler for scheduled events that shows when it runs. *)
Definition noisy_scheduled_handler : ModuleScheduledListener :=
  fun controller _ =>
    ([CtxEffect "handled";
      CtxWaitUntil (Settles 30 (Fulfilled (VString (cron controller))))],
     Plain (VNumber (Z.of_nat (scheduledTime controller)))).

(** A network whose upstream is down. *)
Definition failing_fetch : Request -> Promise Response :=
  fun _ => Settles 5 (Rejected (VFetchError "ECONNREFUSED" "system")).

(** * Facts *)

(** ** [Promise.all] *)




Lemma all_fulfilled_app {A} (ps qs : list (Promise A)) :
  all_fulfilled (ps ++ qs)
  = match all_fulfilled ps, all_fulfilled qs with
    | Some vs, Some ws => Some (vs ++ ws)
    | _, _ => None
    end.
Proof.
  induction ps as [|p ps IH]; simpl.
  - by destruct (all_fulfilled qs).
  - destruct p as [t [v|e]|]; try done.
    rewrite IH. destruct (all_fulfilled ps), (all_fulfilled qs); done.
Qed.

(** The rejection that [first_rejection] keeps is observed no later than
    any other, and it is the earliest in the list among those observed at
    its time. Either the candidate [best] carried along survives, or an
    element of the list replaces it. *)



(** ** The synchronous run of a listener *)

Lemma run_action_raises b event a s : (run_action b event a s).2 = raises b a.
Proof. by destruct a, b. Qed.

Lemma run_action_raises_store b event a s e :
  raises b a = Some e -> (run_action b event a s).1 = s.
Proof. by destruct a, b. Qed.

(** Unfolding of a run: one call, then the rest. *)
Lemma run_actions_cons b event a acts s :
  run_actions b event (a :: acts) s
  = match raises b a with
    | Some e => (s, Some e)
    | None => run_actions b event acts (run_action b event a s).1
    end.
Proof.
  simpl. pose proof (run_action_raises b event a s) as Hr.
  destruct (raises b a) as [e|] eqn:E.
  - pose proof (run_action_raises_store b event a s e E) as Hs.
    destruct (run_action b event a s) as [s' o]; simpl in *. by subst.
  - destruct (run_action b event a s) as [s' o]; simpl in *. by subst.
Qed.

Ltac run_induction acts :=
  let a := fresh "a" in
  let IH := fresh "IH" in
  let s := fresh "s" in
  induction acts as [|a acts IH]; intros s;
  [ simpl | rewrite run_actions_cons; unfold thrown_by, executed;
            fold thrown_by; fold executed;
            destruct (raises _ a) eqn:?; simpl; [ | rewrite IH ] ].

Lemma run_actions_thrown b event acts :
  forall s, (run_actions b event acts s).2 = thrown_by b acts.
Proof. run_induction acts; done. Qed.

Lemma run_actions_next_event b event acts :
  forall s, next_event (run_actions b event acts s).1 = next_event s.
Proof. run_induction acts; try done. by destruct a, b. Qed.

Lemma run_actions_trace b event acts :
  forall s, trace (run_actions b event acts s).1 = trace s ++ effects_of b acts.
Proof.
  unfold effects_of. run_induction acts.
  - by rewrite app_nil_r.
  - by rewrite app_nil_r.
  - destruct a, b; simpl in *; try done. by rewrite <- app_assoc.
    by rewrite <- app_assoc.
Qed.

Lemma run_actions_waitUntilMap b event acts :
  forall s, waitUntilMap (run_actions b event acts s).1 !! event
            = (fun ps => ps ++ tasks_of b acts) <$> waitUntilMap s !! event.
Proof.
  unfold tasks_of. run_induction acts.
  - destruct (waitUntilMap s !! event); simpl; [|done]. by rewrite app_nil_r.
  - destruct (waitUntilMap s !! event); simpl; [|done]. by rewrite app_nil_r.
  - destruct a, b; simpl in *; try done;
      rewrite lookup_alter_eq; destruct (waitUntilMap s !! event); simpl;
        try done; by rewrite <- app_assoc.
Qed.

Lemma run_actions_responseMap event acts :
  forall s, responseMap (run_actions true event acts s).1 !! event
            = match response_set_by acts with
              | Some p => Some p
              | None => responseMap s !! event
              end.
Proof.
  unfold response_set_by. run_induction acts; try done.
  destruct a; simpl in *; try done.
  rewrite last_cons, lookup_insert_eq.
  by destruct (last _).
Qed.

Lemma run_actions_responseMap_scheduled event acts :
  forall s, responseMap (run_actions false event acts s).1 = responseMap s.
Proof. run_induction acts; try done. by destruct a. Qed.

Lemma run_actions_granted event acts :
  forall s, passThrough_granted event (run_actions true event acts s).1
            = passThrough_granted event s || grants acts.
Proof.
  unfold grants. run_induction acts.
  - by rewrite orb_false_r.
  - by rewrite orb_false_r.
  - destruct a; simpl in *; try done.
    unfold passThrough_granted; simpl. rewrite lookup_insert_eq. simpl.
    by rewrite orb_true_r.
Qed.

Lemma run_actions_event_request event acts :
  forall s, event_request (run_actions true event acts s).1 !! event
            = request_after acts <$> event_request s !! event.
Proof.
  unfold request_after. run_induction acts.
  - by destruct (event_request s !! event).
  - by destruct (event_request s !! event).
  - destruct a; simpl in *; try done.
    rewrite lookup_alter_eq. by destruct (event_request s !! event).
Qed.

(** A run on one event leaves the entries of every other event alone. *)
Lemma run_actions_frame b event acts j :
  j <> event ->
  forall s,
    let s' := (run_actions b event acts s).1 in
    event_request s' !! j = event_request s !! j /\
    responseMap s' !! j = responseMap s !! j /\
    passThroughMap s' !! j = passThroughMap s !! j /\
    waitUntilMap s' !! j = waitUntilMap s !! j.
Proof.
  intros Hj. induction acts as [|a acts IH]; intros s; [done|].
  rewrite run_actions_cons. destruct (raises b a) eqn:E; [done|].
  cbv zeta in *. destruct (IH (run_action b event a s).1) as (-> & -> & -> & ->).
  destruct a, b; simpl in *; try done;
    rewrite ?lookup_insert_ne, ?lookup_alter_ne by done; done.
Qed.


(** ** The loop over the fetch listeners *)

Lemma turn_calls_0 (l : Listener) ls r : turn_calls (l :: ls) r 0 = Some (l (FetchView r)).
Proof. done. Qed.

Lemma turn_calls_S (l : Listener) ls r k :
  turn_calls (l :: ls) r (S k)
  = turn_calls ls (request_after (l (FetchView r)) r) k.
Proof. done. Qed.

Lemma listener_calls_app type tr1 tr2 :
  listener_calls type (tr1 ++ tr2)
  = listener_calls type tr1 ++ listener_calls type tr2.
Proof. apply omap_app. Qed.

Lemma listener_calls_effects type b acts :
  listener_calls type (effects_of b acts) = [].
Proof.
  unfold effects_of, listener_calls.
  induction (executed b acts) as [|a l IH]; [done|].
  destruct a; simpl; done.
Qed.

Lemma trace_since_app s s' tr : trace s' = trace s ++ tr -> trace_since s s' = tr.
Proof. unfold trace_since. intros ->. by rewrite drop_app_length. Qed.

(** One turn of the loop, read off the calls of the listener. *)
Lemma fetch_listeners_cons event (l : Listener) (ls : list Listener) index s r :
  event_request s !! event = Some r ->
  responseMap s !! event = None ->
  let acts := l (FetchView r) in
  let s1 := (run_actions true event acts
               (log (ObsListener "fetch" index) s)).1 in
  fetch_listeners event (l :: ls) index s
  = match thrown_by true acts with
    | Some err => on_failure event err s1
    | None =>
        match response_set_by acts with
        | None => fetch_listeners event ls (S index) s1
        | Some p =>
            match await p with
            | Returns res => (ExitReturn res, s1)
            | Throws err => on_failure event err s1
            | Hangs => (ExitHang, s1)
            end
        end
    end.
Proof.
  intros Hr Hresp acts s1. simpl.
  unfold FetchEvent.request. simpl.
  rewrite (lookup_total_correct _ _ _ Hr). fold acts.
  pose proof (run_actions_thrown true event acts
                (log (ObsListener "fetch" index) s)) as Ht.
  pose proof (run_actions_responseMap event acts
                (log (ObsListener "fetch" index) s)) as Hm.
  fold s1 in Ht, Hm. simpl in Hm. rewrite Hresp in Hm.
  destruct (run_actions true event acts (log (ObsListener "fetch" index) s))
    as [s1' o] eqn:E.
  simpl in *. subst s1. subst o.
  destruct (thrown_by true acts); [done|].
  rewrite Hm. by destruct (response_set_by acts).
Qed.

(** What a turn that neither throws nor sets a response leaves. *)
Lemma quiet_turn event (l : Listener) index s r :
  event_request s !! event = Some r ->
  responseMap s !! event = None ->
  let acts := l (FetchView r) in
  let s1 := (run_actions true event acts
               (log (ObsListener "fetch" index) s)).1 in
  response_set_by acts = None ->
  event_request s1 !! event = Some (request_after acts r) /\
  responseMap s1 !! event = None /\
  trace s1 = trace s ++ ObsListener "fetch" index :: effects_of true acts.
Proof.
  intros Hr Hresp acts s1 Hq. subst s1.
  rewrite run_actions_event_request, run_actions_responseMap,
    run_actions_trace. simpl. rewrite Hr, Hresp, Hq.
  by rewrite <- app_assoc.
Qed.

Lemma on_failure_trace event e s :
  exists tr, trace (on_failure event e s).2 = trace s ++ tr /\
             listener_calls "fetch" tr = [].
Proof.
  unfold on_failure. destruct (passThrough_granted event s).
  - destruct (get_stack e).
    + by exists [ObsWarn v].
    + exists []. by rewrite app_nil_r.
  - exists []. by rewrite app_nil_r.
Qed.

Lemma on_failure_frame event e s :
  let s' := (on_failure event e s).2 in
  next_event s' = next_event s /\ event_request s' = event_request s /\
  responseMap s' = responseMap s /\ passThroughMap s' = passThroughMap s /\
  waitUntilMap s' = waitUntilMap s.
Proof.
  unfold on_failure. destruct (passThrough_granted event s); [|done].
  by destruct (get_stack e).
Qed.

(** The loop touches the entries of its own event only, allocates nothing,
    keeps the task list of its event in place, and only adds to the trace. *)
Lemma fetch_listeners_frame event ls :
  forall index s,
    let s' := (fetch_listeners event ls index s).2 in
    next_event s' = next_event s /\
    (forall j, j <> event ->
       event_request s' !! j = event_request s !! j /\
       responseMap s' !! j = responseMap s !! j /\
       passThroughMap s' !! j = passThroughMap s !! j /\
       waitUntilMap s' !! j = waitUntilMap s !! j) /\
    (is_Some (waitUntilMap s !! event) ->
     is_Some (waitUntilMap s' !! event)) /\
    (exists tr, trace s' = trace s ++ tr).
Proof.
  induction ls as [|l ls IH]; intros index s; cbv zeta.
  { simpl. split; [done|]. split; [done|]. split; [done|].
    exists []. by rewrite app_nil_r. }
  simpl.
  set (s0 := log (ObsListener "fetch" index) s).
  set (acts := l (FetchView (FetchEvent.request event s0))).
  pose proof (run_actions_next_event true event acts s0) as Hn.
  pose proof (fun j Hj => run_actions_frame true event acts j Hj s0) as Hf.
  pose proof (run_actions_waitUntilMap true event acts s0) as Hw.
  pose proof (run_actions_trace true event acts s0) as Ht.
  destruct (run_actions true event acts s0) as [s1 o]. simpl in *.
  assert (Hbase :
    next_event s1 = next_event s /\
    (forall j, j <> event ->
       event_request s1 !! j = event_request s !! j /\
       responseMap s1 !! j = responseMap s !! j /\
       passThroughMap s1 !! j = passThroughMap s !! j /\
       waitUntilMap s1 !! j = waitUntilMap s !! j) /\
    (is_Some (waitUntilMap s !! event) ->
     is_Some (waitUntilMap s1 !! event)) /\
    (exists tr, trace s1 = trace s ++ tr)).
  { split; [done|]. split; [by intros j Hj; apply (Hf j Hj)|]. split.
    - rewrite Hw. intros [ps ->]. by eexists.
    - rewrite Ht, <- app_assoc. by eexists. }
  assert (Hfail : forall err,
    let s' := (on_failure event err s1).2 in
    next_event s' = next_event s /\
    (forall j, j <> event ->
       event_request s' !! j = event_request s !! j /\
       responseMap s' !! j = responseMap s !! j /\
       passThroughMap s' !! j = passThroughMap s !! j /\
       waitUntilMap s' !! j = waitUntilMap s !! j) /\
    (is_Some (waitUntilMap s !! event) ->
     is_Some (waitUntilMap s' !! event)) /\
    (exists tr, trace s' = trace s ++ tr)).
  { intros err. cbv zeta.
    destruct (on_failure_frame event err s1) as (-> & -> & -> & -> & ->).
    destruct Hbase as (? & ? & ? & [tr1 Htr1]).
    split; [done|]. split; [done|]. split; [done|].
    destruct (on_failure_trace event err s1) as (tr2 & -> & _).
    rewrite Htr1, <- app_assoc. by eexists. }
  destruct o as [err|]; [apply Hfail|].
  destruct (responseMap s1 !! event) as [p|].
  - destruct p as [t [res|err]|]; simpl; [done|apply Hfail|done].
  - specialize (IH (S index) s1). cbv zeta in IH.
    destruct IH as (-> & IHf & IHw & [tr2 ->]).
    destruct Hbase as (? & Hf1 & ? & [tr1 ->]).
    split; [done|]. split.
    { intros j Hj. destruct (IHf j Hj) as (-> & -> & -> & ->). by apply Hf1. }
    split; [by auto|]. rewrite <- app_assoc. by eexists.
Qed.

Lemma listener_calls_cons type index tr :
  listener_calls type (ObsListener type index :: tr)
  = index :: listener_calls type tr.
Proof. unfold listener_calls. simpl. by rewrite bool_decide_true by done. Qed.

(** The trace of one turn followed by the handling of its failure. *)
Lemma failed_turn_trace event err index s acts :
  let s1 := (run_actions true event acts
               (log (ObsListener "fetch" index) s)).1 in
  exists tr, trace (on_failure event err s1).2 = trace s ++ tr /\
             listener_calls "fetch" tr = [index].
Proof.
  intros s1. destruct (on_failure_trace event err s1) as (tr & -> & Htr).
  subst s1. rewrite run_actions_trace. simpl.
  exists (ObsListener "fetch" index :: effects_of true acts ++ tr).
  split; [by rewrite <- !app_assoc|].
  by rewrite listener_calls_cons, listener_calls_app, listener_calls_effects, Htr.
Qed.

Lemma turn_trace event index s acts :
  let s1 := (run_actions true event acts
               (log (ObsListener "fetch" index) s)).1 in
  exists tr, trace s1 = trace s ++ tr /\
             listener_calls "fetch" tr = [index].
Proof.
  intros s1. subst s1. rewrite run_actions_trace. simpl.
  exists (ObsListener "fetch" index :: effects_of true acts).
  split; [by rewrite <- !app_assoc|].
  by rewrite listener_calls_cons, listener_calls_effects.
Qed.

(** The loop when listener [k] is the first whose turn sets a response:
    nothing after [k] is called; and when no listener up to [k] throws, the
    listeners [0..k] are called in order and the loop is left with the
    awaited response. *)
Lemma fetch_listeners_first_response event ls :
  forall k index s r calls p,
    event_request s !! event = Some r ->
    responseMap s !! event = None ->
    (forall j acts, j < k -> turn_calls ls r j = Some acts ->
                    response_set_by acts = None) ->
    turn_calls ls r k = Some calls ->
    response_set_by calls = Some p ->
    exists tr,
      trace (fetch_listeners event ls index s).2 = trace s ++ tr /\
      (forall x, x ∈ listener_calls "fetch" tr -> x <= index + k) /\
      ((forall j acts, j <= k -> turn_calls ls r j = Some acts ->
                       thrown_by true acts = None) ->
       listener_calls "fetch" tr = seq index (S k) /\
       forall res, await p = Returns res ->
                   (fetch_listeners event ls index s).1 = ExitReturn res).
Proof.
  induction ls as [|l ls IH]; intros k index s r calls p Hr Hresp Hfirst Hk Hp.
  { by destruct k. }
  pose proof (fetch_listeners_cons event l ls index s r Hr Hresp) as Hcons.
  cbv zeta in Hcons. rewrite Hcons. clear Hcons.
  set (acts := l (FetchView r)).
  set (s1 := (run_actions true event acts (log (ObsListener "fetch" index) s)).1).
  assert (Hone : forall x, x ∈ [index] -> x <= index + k).
  { intros x ->%list_elem_of_singleton. lia. }
  destruct k as [|k].
  - (* the turn of the first responder *)
    rewrite turn_calls_0 in Hk. injection Hk as <-. fold acts in Hp.
    rewrite Hp.
    destruct (thrown_by true acts) as [err|] eqn:Ethrow.
    + destruct (failed_turn_trace event err index s acts) as (tr & Htr & Hc).
      exists tr. split; [done|]. rewrite Hc. split; [done|].
      intros Hno. specialize (Hno 0 acts (Nat.le_refl 0) (turn_calls_0 _ _ _)).
      fold acts in Hno. congruence.
    + destruct (await p) as [res|err|] eqn:Eaw.
      * destruct (turn_trace event index s acts) as (tr & Htr & Hc).
        exists tr. split; [done|]. rewrite Hc. split; [done|].
        intros _. split; [done|]. by intros res' [= <-].
      * destruct (failed_turn_trace event err index s acts) as (tr & Htr & Hc).
        exists tr. split; [done|]. rewrite Hc. split; [done|].
        intros _. split; [done|]. by intros res' [=].
      * destruct (turn_trace event index s acts) as (tr & Htr & Hc).
        exists tr. split; [done|]. rewrite Hc. split; [done|].
        intros _. split; [done|]. by intros res' [=].
  - (* a turn before it: no response is set *)
    assert (Hq : response_set_by acts = None).
    { apply (Hfirst 0); [lia|apply turn_calls_0]. }
    rewrite Hq.
    destruct (thrown_by true acts) as [err|] eqn:Ethrow.
    + destruct (failed_turn_trace event err index s acts) as (tr & Htr & Hc).
      exists tr. split; [done|]. rewrite Hc. split; [done|].
      intros Hno. specialize (Hno 0 acts (Nat.le_0_l _) (turn_calls_0 _ _ _)).
      fold acts in Hno. congruence.
    + destruct (quiet_turn event l index s r Hr Hresp Hq) as (Hr1 & Hresp1 & Ht1).
      fold acts in Hr1, Hresp1, Ht1. fold s1 in Hr1, Hresp1, Ht1.
      rewrite turn_calls_S in Hk. fold acts in Hk.
      destruct (IH k (S index) s1 (request_after acts r) calls p Hr1 Hresp1)
        as (tr & Htr & Hle & Hall); [|done|done|].
      { intros j acts' Hj Hc. apply (Hfirst (S j)); [lia|].
        by rewrite turn_calls_S. }
      exists (ObsListener "fetch" index :: effects_of true acts ++ tr).
      split. { rewrite Htr, Ht1. by rewrite <- !app_assoc. }
      rewrite listener_calls_cons, listener_calls_app, listener_calls_effects.
      simpl. split.
      * intros x [->|Hx]%elem_of_cons; [lia|]. apply Hle in Hx. lia.
      * intros Hno. destruct Hall as [Hseq Hret].
        { intros j acts' Hj Hc. apply (Hno (S j)); [lia|].
          by rewrite turn_calls_S. }
        by rewrite Hseq.
Qed.

Lemma fetch_listeners_cons_outcome event (l : Listener) (ls : list Listener)
    index s r :
  event_request s !! event = Some r ->
  responseMap s !! event = None ->
  fetch_listeners event (l :: ls) index s
  = let acts := l (FetchView r) in
    let s1 := (run_actions true event acts
                 (log (ObsListener "fetch" index) s)).1 in
    match turn_outcome acts with
    | Quiet => fetch_listeners event ls (S index) s1
    | Responds res => (ExitReturn res, s1)
    | Fails err => on_failure event err s1
    | Stalls => (ExitHang, s1)
    end.
Proof.
  intros Hr Hresp.
  pose proof (fetch_listeners_cons event l ls index s r Hr Hresp) as Hcons.
  cbv zeta in *. rewrite Hcons. unfold turn_outcome.
  destruct (thrown_by true (l (FetchView r))); [done|].
  destruct (response_set_by (l (FetchView r))) as [p|]; [|done].
  by destruct (await p).
Qed.

(** The loop up to the first listener whose turn is not quiet. *)
Lemma fetch_listeners_first_outcome event ls :
  forall k index s r calls,
    event_request s !! event = Some r ->
    responseMap s !! event = None ->
    (forall j acts, j < k -> turn_calls ls r j = Some acts ->
                    turn_outcome acts = Quiet) ->
    turn_calls ls r k = Some calls ->
    exists s1 tr,
      trace s1 = trace s ++ tr /\
      listener_calls "fetch" tr = seq index (S k) /\
      Forall turn_obs tr /\
      passThrough_granted event s1
      = passThrough_granted event s || granted_after (take (S k) ls) r /\
      event_request s1 !! event
      = Some (request_seen_after (take (S k) ls) r) /\
      (turn_outcome calls = Quiet -> responseMap s1 !! event = None) /\
      fetch_listeners event ls index s
      = match turn_outcome calls with
        | Quiet => fetch_listeners event (drop (S k) ls) (index + S k) s1
        | Responds res => (ExitReturn res, s1)
        | Fails err => on_failure event err s1
        | Stalls => (ExitHang, s1)
        end.
Proof.
  induction ls as [|l ls IH]; intros k index s r calls Hr Hresp Hquiet Hk.
  { by destruct k. }
  rewrite (fetch_listeners_cons_outcome event l ls index s r Hr Hresp).
  cbv zeta.
  set (acts := l (FetchView r)).
  set (s1 := (run_actions true event acts (log (ObsListener "fetch" index) s)).1).
  assert (Htr1 : trace s1 = trace s ++ ObsListener "fetch" index :: effects_of true acts).
  { subst s1. rewrite run_actions_trace. simpl. by rewrite <- app_assoc. }
  assert (Hg1 : passThrough_granted event s1
                = passThrough_granted event s || grants acts).
  { subst s1. by rewrite run_actions_granted. }
  assert (Hr1 : event_request s1 !! event = Some (request_after acts r)).
  { subst s1. rewrite run_actions_event_request. simpl. by rewrite Hr. }
  assert (Hnf : Forall turn_obs
                  (ObsListener "fetch" index :: effects_of true acts)).
  { constructor; [done|]. unfold effects_of.
    induction (executed true acts) as [|a l' IHl]; [constructor|].
    destruct a; simpl; try done. constructor; [done|]. done. }
  destruct k as [|k].
  - rewrite turn_calls_0 in Hk. injection Hk as <-. fold acts.
    exists s1, (ObsListener "fetch" index :: effects_of true acts).
    split; [done|]. split.
    { by rewrite listener_calls_cons, listener_calls_effects. }
    split; [done|]. split.
    { simpl. fold acts. by rewrite orb_false_r. }
    split; [done|]. split.
    { intros Hq. subst s1. rewrite run_actions_responseMap. simpl.
      rewrite Hresp. unfold turn_outcome in Hq.
      destruct (thrown_by true acts); [done|].
      destruct (response_set_by acts) as [p|]; [|done]. by destruct (await p). }
    simpl. rewrite drop_0. replace (index + 1) with (S index) by lia. done.
  - assert (Hq : turn_outcome acts = Quiet).
    { apply (Hquiet 0); [lia|apply turn_calls_0]. }
    rewrite Hq.
    assert (Hresp1 : responseMap s1 !! event = None).
    { subst s1. rewrite run_actions_responseMap. simpl. rewrite Hresp.
      unfold turn_outcome in Hq.
      destruct (thrown_by true acts); [done|].
      destruct (response_set_by acts) as [p|]; [|done]. by destruct (await p). }
    rewrite turn_calls_S in Hk. fold acts in Hk.
    destruct (IH k (S index) s1 (request_after acts r) calls Hr1 Hresp1)
      as (s2 & tr & Htr & Hc & Hnf2 & Hg & Hr2 & Hresp2 & Heq); [|done|].
    { intros j acts' Hj Hc. apply (Hquiet (S j)); [lia|].
      by rewrite turn_calls_S. }
    exists s2, (ObsListener "fetch" index :: effects_of true acts ++ tr).
    split. { rewrite Htr, Htr1. by rewrite <- !app_assoc. }
    split.
    { rewrite listener_calls_cons, listener_calls_app, listener_calls_effects.
      simpl. by rewrite Hc. }
    split.
    { change (ObsListener "fetch" index :: effects_of true acts ++ tr)
        with ((ObsListener "fetch" index :: effects_of true acts) ++ tr).
      by apply Forall_app. }
    split.
    { rewrite Hg, Hg1. simpl. fold acts. by rewrite orb_assoc. }
    split; [done|]. split; [done|].
    rewrite Heq. simpl.
    replace (S (index + S k)) with (index + S (S k)) by lia. done.
Qed.

(** The loop when every turn is quiet: every listener is called, in order,
    and the loop is left for the fallback. *)
Lemma fetch_listeners_all_quiet event ls :
  forall index s r,
    event_request s !! event = Some r ->
    responseMap s !! event = None ->
    (forall j acts, turn_calls ls r j = Some acts ->
                    turn_outcome acts = Quiet) ->
    exists s1 tr,
      fetch_listeners event ls index s = (ExitFallback, s1) /\
      trace s1 = trace s ++ tr /\
      listener_calls "fetch" tr = seq index (length ls) /\
      Forall turn_obs tr.
Proof.
  induction ls as [|l ls IH]; intros index s r Hr Hresp Hquiet.
  { exists s, []. simpl. by rewrite app_nil_r. }
  destruct (fetch_listeners_first_outcome event (l :: ls) 0 index s r
              (l (FetchView r)) Hr Hresp)
    as (s1 & tr1 & Htr1 & Hc1 & Hnf1 & _ & Hr1 & Hresp1 & Heq);
    [intros j acts Hj; lia|done|].
  assert (Hq : turn_outcome (l (FetchView r)) = Quiet).
  { apply (Hquiet 0). apply turn_calls_0. }
  rewrite Hq in Heq. specialize (Hresp1 Hq). simpl in Hr1.
  change (drop 1 (l :: ls)) with (drop 0 ls) in Heq. rewrite drop_0 in Heq.
  destruct (IH (index + 1) s1 _ Hr1 Hresp1) as (s2 & tr2 & Heq2 & Htr2 & Hc2 & Hnf2).
  { intros j acts Hj. apply (Hquiet (S j)). by rewrite turn_calls_S. }
  exists s2, (tr1 ++ tr2). split; [by rewrite Heq|].
  split. { rewrite Htr2, Htr1. by rewrite app_assoc. }
  split.
  { rewrite listener_calls_app, Hc1, Hc2. simpl.
    by replace (index + 1) with (S index) by lia. }
  by apply Forall_app.
Qed.

(** ** Dispatch of a fetch event *)

Lemma fresh_empty_store : fresh empty_store.
Proof. intros i _. simpl. by rewrite !lookup_empty. Qed.

Lemma Request_clone_eq r : Request_clone r = r.
Proof. by destruct r. Qed.

(** A new event of a fresh store has an empty task list and nothing else. *)
Lemma FetchEvent_new_fresh r s :
  fresh s ->
  let event := next_event s in
  let s0 := (FetchEvent.new r s).2 in
  (FetchEvent.new r s).1 = event /\
  event_request s0 !! event = Some r /\
  responseMap s0 !! event = None /\
  passThroughMap s0 !! event = None /\
  waitUntilMap s0 !! event = Some [] /\
  trace s0 = trace s.
Proof.
  intros Hf. destruct (Hf (next_event s) (Nat.le_refl _)) as (_ & ? & ? & _).
  simpl. by rewrite !lookup_insert_eq.
Qed.

Lemma dispatchFetch_unfold fetch this request upstreamUrl s :
  dispatchFetch fetch this request upstreamUrl s
  = let event := next_event s in
    let s0 := (FetchEvent.new (Request_clone request) s).2 in
    match fetch_listeners event (default [] (_listeners this !! "fetch")) 0 s0
    with
    | (ExitReturn r, s1) =>
        (Returns {| response := r; waitUntil := await_waitUntil event |},
         request, s1)
    | (ExitThrow e, s1) => (Throws e, request, s1)
    | (ExitHang, s1) => (Hangs, request, s1)
    | (ExitFallback, s1) =>
        match upstreamUrl with
        | None => (Throws no_upstream_error, request, s1)
        | Some _ =>
            let request' :=
              Request_with_headers (Headers_delete "host" (headers request))
                request in
            let s2 := log (ObsFetch request') s1 in
            match await (fetch request') with
            | Returns r =>
                (Returns {| response := r;
                            waitUntil := await_waitUntil event |},
                 request', s2)
            | Throws e => (Throws e, request', s2)
            | Hangs => (Hangs, request', s2)
            end
        end
    end.
Proof. reflexivity. Qed.

(** What the part of [dispatchFetch] after the loop adds to the trace: at
    most the upstream fetch. *)
Lemma dispatchFetch_trace fetch this request upstreamUrl s :
  let event := next_event s in
  let s0 := (FetchEvent.new (Request_clone request) s).2 in
  let s1 :=
    (fetch_listeners event (default [] (_listeners this !! "fetch")) 0 s0).2 in
  exists tr,
    trace (dispatchFetch fetch this request upstreamUrl s).2 = trace s1 ++ tr /\
    listener_calls "fetch" tr = [].
Proof.
  cbv zeta. rewrite dispatchFetch_unfold. cbv zeta.
  destruct (fetch_listeners _ _ 0 _) as [[r|e| |] s1]; simpl;
    try (exists []; by rewrite app_nil_r).
  destruct upstreamUrl; [|exists []; by rewrite app_nil_r].
  destruct (await _); by eexists [_].
Qed.

(** C1 (amended). In a fetch dispatch where listener [k] is the first
    whose turn sets a response, no listener after [k] is called. When
    moreover no listener up to and including [k] throws in its synchronous
    run and the response that [k] set fulfils, the listeners [0..k] are
    called in order, [dispatchFetch] returns exactly the value the response
    fulfilled with, and the caller's request is left as it was. *)
Theorem dispatchFetch_first_response fetch this request upstreamUrl s
    ls k calls p :
  fresh s ->
  _listeners this !! "fetch" = Some ls ->
  (forall j acts, j < k ->
     turn_calls ls (Request_clone request) j = Some acts ->
     response_set_by acts = None) ->
  turn_calls ls (Request_clone request) k = Some calls ->
  response_set_by calls = Some p ->
  let result := dispatchFetch fetch this request upstreamUrl s in
  (forall x, x ∈ listener_calls "fetch" (trace_since s result.2) -> x <= k) /\
  ((forall j acts, j <= k ->
      turn_calls ls (Request_clone request) j = Some acts ->
      thrown_by true acts = None) ->
   forall res, await p = Returns res ->
     listener_calls "fetch" (trace_since s result.2) = seq 0 (S k) /\
     result.1.2 = request /\
     exists rw, result.1.1 = Returns rw /\ response rw = res).
Proof.
  intros Hf Hls Hfirst Hk Hp result.
  destruct (FetchEvent_new_fresh (Request_clone request) s Hf)
    as (_ & Hr & Hresp & _ & _ & Ht0).
  destruct (fetch_listeners_first_response (next_event s) ls k 0 _ _ calls p
              Hr Hresp Hfirst Hk Hp) as (tr & Htr & Hle & Hall).
  destruct (dispatchFetch_trace fetch this request upstreamUrl s)
    as (tr2 & Htr2 & Hc2).
  cbv zeta in Htr2. rewrite Hls in Htr2. simpl default in Htr2.
  rewrite Htr, Ht0, <- app_assoc in Htr2.
  fold result in Htr2. rewrite (trace_since_app _ _ _ Htr2).
  rewrite listener_calls_app, Hc2, app_nil_r.
  split; [done|]. intros Hno res Hres.
  destruct (Hall Hno) as [Hseq Hexit]. specialize (Hexit res Hres).
  split; [done|].
  subst result. rewrite dispatchFetch_unfold. cbv zeta.
  rewrite Hls. simpl default.
  destruct (fetch_listeners _ ls 0 _) as [exit s1]. simpl in Hexit. subst exit.
  simpl. split; [done|]. by eexists.
Qed.

(** At a concrete input: a quiet listener, then one that responds, then one
    that is never called. *)
Lemma dispatchFetch_first_response_witness :
  let result :=
    dispatchFetch sample_fetch
      (register_all "fetch" [quiet_listener; responder; late_listener]
         new_EventsModule)
      sample_request None empty_store in
  (forall x, x ∈ listener_calls "fetch" (trace_since empty_store result.2) ->
             x <= 1) /\
  ((forall j acts, j <= 1 ->
      turn_calls [quiet_listener; responder; late_listener]
        (Request_clone sample_request) j = Some acts ->
      thrown_by true acts = None) ->
   forall res, await (Settles 0 (Fulfilled ok_response)) = Returns res ->
     listener_calls "fetch" (trace_since empty_store result.2) = seq 0 2 /\
     result.1.2 = sample_request /\
     exists rw, result.1.1 = Returns rw /\ response rw = res).
Proof.
  apply (dispatchFetch_first_response sample_fetch _ sample_request None
           empty_store [quiet_listener; responder; late_listener] 1
           (responder (FetchView sample_request))).
  - exact fresh_empty_store.
  - reflexivity.
  - intros [|j] acts Hj; [|lia]. intros [= <-]. reflexivity.
  - reflexivity.
  - reflexivity.
Defined.

(** C1, as stated, fails: the only listener sets a response that fulfils
    and then throws in the same turn; the dispatch fails with what was
    thrown instead of returning the response. *)
Lemma dispatchFetch_response_then_throw :
  turn_calls [responds_then_throws] (Request_clone sample_request) 0
  = Some (responds_then_throws (FetchView sample_request)) /\
  response_set_by (responds_then_throws (FetchView sample_request))
  = Some (Settles 0 (Fulfilled ok_response)) /\
  (dispatchFetch sample_fetch
     (register_all "fetch" [responds_then_throws] new_EventsModule)
     sample_request (Some "https://miniflare.dev") empty_store).1.1
  = Throws boom.
Proof. split; [|split]; reflexivity. Qed.

(** The dispatch up to the first listener whose turn fails: the listeners
    [0..k] are called in order and nothing after them; without a grant of
    pass-through the dispatch fails with the listener's error, the request
    is untouched and nothing else is observed; with a grant, the stack of
    the error is logged as a warning and the fallback decides the result,
    unless reading the stack itself throws. *)
Lemma dispatchFetch_first_failure fetch this request upstreamUrl s k calls e :
  fresh s ->
  let ls := default [] (_listeners this !! "fetch") in
  let r0 := Request_clone request in
  (forall j acts, j < k -> turn_calls ls r0 j = Some acts ->
                  turn_outcome acts = Quiet) ->
  turn_calls ls r0 k = Some calls ->
  turn_outcome calls = Fails e ->
  let result := dispatchFetch fetch this request upstreamUrl s in
  let request' :=
    Request_with_headers (Headers_delete "host" (headers request)) request in
  exists tr1,
    listener_calls "fetch" tr1 = seq 0 (S k) /\
    Forall turn_obs tr1 /\
    if granted_after (take (S k) ls) r0 then
      match get_stack e with
      | inl stack =>
          match upstreamUrl with
          | None =>
              result.1.1 = Throws no_upstream_error /\
              result.1.2 = request /\
              trace_since s result.2 = tr1 ++ [ObsWarn stack]
          | Some _ =>
              result.1.2 = request' /\
              trace_since s result.2
              = tr1 ++ [ObsWarn stack; ObsFetch request'] /\
              match await (fetch request') with
              | Returns r =>
                  exists rw, result.1.1 = Returns rw /\ response rw = r
              | Throws e' => result.1.1 = Throws e'
              | Hangs => result.1.1 = Hangs
              end
          end
      | inr type_error =>
          result.1.1 = Throws type_error /\ result.1.2 = request /\
          trace_since s result.2 = tr1
      end
    else
      result.1.1 = Throws e /\ result.1.2 = request /\
      trace_since s result.2 = tr1.
Proof.
  intros Hf ls r0 Hquiet Hk He result request'.
  destruct (FetchEvent_new_fresh r0 s Hf) as (_ & Hr & Hresp & Hpt & _ & Ht0).
  destruct (fetch_listeners_first_outcome (next_event s) ls k 0 _ _ calls
              Hr Hresp Hquiet Hk)
    as (s1 & tr1 & Htr1 & Hc1 & Hobs1 & Hg & _ & _ & Heq).
  rewrite He in Heq. exists tr1. split; [done|]. split; [done|].
  assert (Hg0 : passThrough_granted (next_event s) (FetchEvent.new r0 s).2
                = false).
  { unfold passThrough_granted. by rewrite Hpt. }
  rewrite Hg0 in Hg. simpl in Hg. rewrite Ht0 in Htr1.
  subst result. rewrite dispatchFetch_unfold. cbv zeta.
  fold ls r0. rewrite Heq. unfold on_failure. rewrite Hg.
  destruct (granted_after (take (S k) ls) r0).
  - destruct (get_stack e) as [stack|type_error].
    + destruct upstreamUrl as [u|].
      * fold request'. destruct (await (fetch request')) as [r|e'|]; simpl;
          (split; [done|]); (split; [apply trace_since_app; simpl;
             rewrite Htr1, <- !app_assoc; done|]); [by eexists|done|done].
      * simpl. split; [done|]. split; [done|].
        apply trace_since_app. simpl. by rewrite Htr1, <- app_assoc.
    + simpl. split; [done|]. split; [done|]. by apply trace_since_app.
  - simpl. split; [done|]. split; [done|]. by apply trace_since_app.
Qed.

(** C2 (the code departs from it). A listener grants pass-through and
    responds with a promise rejected with [undefined]: reading [e.stack] in
    the [catch] block throws, so the dispatch fails with that TypeError;
    nothing is logged and the upstream, though configured, is not asked. *)
Theorem dispatchFetch_pass_through_undefined :
  let result :=
    dispatchFetch sample_fetch
      (register_all "fetch" [grants_then_rejects VUndefined] new_EventsModule)
      sample_request (Some sample_upstream) empty_store in
  passThrough_granted 0 result.2 = true /\
  result.1.1
  = Throws
      (TypeError "Cannot read properties of undefined (reading 'stack')") /\
  trace result.2 = [ObsListener "fetch" 0].
Proof. split; [|split]; reflexivity. Qed.

(** Whenever the loop of [dispatchFetch] is left for the fallback and
    no upstream was given, the dispatch fails with the error that says so.
    That is the case when every listener had a quiet turn, and when a
    listener failed after pass-through was granted and the failure could be
    logged: the dispatch then fails with this error and not with the
    listener's. *)
Theorem dispatchFetch_no_upstream fetch this request s :
  fresh s ->
  let ls := default [] (_listeners this !! "fetch") in
  let r0 := Request_clone request in
  let result := dispatchFetch fetch this request None s in
  (forall s1,
     fetch_listeners (next_event s) ls 0 (FetchEvent.new r0 s).2
     = (ExitFallback, s1) ->
     result = (Throws no_upstream_error, request, s1)) /\
  ((forall j acts, turn_calls ls r0 j = Some acts ->
                   turn_outcome acts = Quiet) ->
   result.1.1 = Throws no_upstream_error) /\
  (forall k calls e stack,
     (forall j acts, j < k -> turn_calls ls r0 j = Some acts ->
                     turn_outcome acts = Quiet) ->
     turn_calls ls r0 k = Some calls ->
     turn_outcome calls = Fails e ->
     granted_after (take (S k) ls) r0 = true ->
     get_stack e = inl stack ->
     result.1.1 = Throws no_upstream_error /\
     ObsWarn stack ∈ trace_since s result.2).
Proof.
  intros Hf ls r0 result. split; [|split].
  - intros s1 Hexit. subst result. rewrite dispatchFetch_unfold. cbv zeta.
    fold ls r0. by rewrite Hexit.
  - intros Hquiet.
    destruct (FetchEvent_new_fresh r0 s Hf) as (_ & Hr & Hresp & _).
    destruct (fetch_listeners_all_quiet (next_event s) ls 0 _ _ Hr Hresp Hquiet)
      as (s1 & tr & Hexit & _).
    subst result. rewrite dispatchFetch_unfold. cbv zeta.
    fold ls r0. by rewrite Hexit.
  - intros k calls e stack Hquiet Hk He Hg Hst.
    destruct (dispatchFetch_first_failure fetch this request None s k calls e
                Hf Hquiet Hk He) as (tr1 & _ & _ & H).
    fold ls r0 in H. rewrite Hg, Hst in H. destruct H as (H1 & _ & H3).
    fold result in H1, H3. split; [done|].
    rewrite H3. apply elem_of_app. right. by apply list_elem_of_singleton.
Qed.

(** At a concrete input: the only listener grants pass-through and throws;
    without upstream the dispatch fails with the configuration error. *)
Lemma dispatchFetch_no_upstream_witness :
  (dispatchFetch sample_fetch
     (register_all "fetch" [grants_then_throws boom] new_EventsModule)
     sample_request None empty_store).1.1
  = Throws no_upstream_error /\
  ObsWarn (VString "Error: boom")
  ∈ trace_since empty_store
      (dispatchFetch sample_fetch
         (register_all "fetch" [grants_then_throws boom] new_EventsModule)
         sample_request None empty_store).2.
Proof.
  destruct (dispatchFetch_no_upstream sample_fetch
              (register_all "fetch" [grants_then_throws boom] new_EventsModule)
              sample_request empty_store fresh_empty_store) as (_ & _ & H).
  apply (H 0 (grants_then_throws boom (FetchView sample_request)) boom).
  - intros j acts Hj. lia.
  - reflexivity.
  - reflexivity.
  - reflexivity.
  - reflexivity.
Defined.

(** C4 (the code departs from it). A listener grants pass-through and
    throws [undefined]; no upstream is given. The dispatch does not reach
    the fallback: reading [e.stack] in the [catch] block throws, and the
    dispatch fails with that TypeError and not with the configuration
    error; nothing is logged. The same holds of [null], and of a response
    that rejects with either. *)
Theorem dispatchFetch_no_upstream_undefined :
  let result (l : Listener) :=
    dispatchFetch sample_fetch (register_all "fetch" [l] new_EventsModule)
      sample_request None empty_store in
  passThrough_granted 0 (result (grants_then_throws VUndefined)).2 = true /\
  (result (grants_then_throws VUndefined)).1.1
  = Throws
      (TypeError "Cannot read properties of undefined (reading 'stack')") /\
  (result (grants_then_throws VNull)).1.1
  = Throws (TypeError "Cannot read properties of null (reading 'stack')") /\
  (result (grants_then_rejects VUndefined)).1.1
  = Throws
      (TypeError "Cannot read properties of undefined (reading 'stack')") /\
  trace (result (grants_then_throws VUndefined)).2 = [ObsListener "fetch" 0] /\
  (result (grants_then_throws boom)).1.1 = Throws no_upstream_error.
Proof. repeat split. Qed.

Lemma Headers_has_delete name h :
  Headers_has name (Headers_delete name h) = false.
Proof.
  unfold Headers_has, Headers_delete.
  induction h as [|kv h IH]; simpl; [done|].
  destruct (same_header kv.1 name) eqn:E; simpl; [done|]. by rewrite E.
Qed.

(** C3 (amended). The event of a fetch dispatch wraps a duplicate of the
    caller's request. When the loop is left for the fallback and an
    upstream is configured, the "host" header is deleted from the caller's
    own request, which is otherwise unchanged, the upstream fetch is made
    with that request, and the duplicate stays as the listeners left it.
    On every other path the caller's request is left as it was and no
    fetch is made. *)
Theorem dispatchFetch_request_frame fetch this request upstreamUrl s :
  let event := next_event s in
  let s0 := (FetchEvent.new (Request_clone request) s).2 in
  let loop :=
    fetch_listeners event (default [] (_listeners this !! "fetch")) 0 s0 in
  let result := dispatchFetch fetch this request upstreamUrl s in
  let request' :=
    Request_with_headers (Headers_delete "host" (headers request)) request in
  FetchEvent.request event s0 = request /\
  match loop.1, upstreamUrl with
  | ExitFallback, Some _ =>
      result.1.2 = request' /\
      trace result.2 = trace loop.2 ++ [ObsFetch request'] /\
      Headers_has "host" (headers request') = false /\
      url request' = url request /\ method request' = method request /\
      body request' = body request /\
      event_request result.2 = event_request loop.2 /\
      match await (fetch request') with
      | Returns r => exists rw, result.1.1 = Returns rw /\ response rw = r
      | Throws e => result.1.1 = Throws e
      | Hangs => result.1.1 = Hangs
      end
  | _, _ => result.1.2 = request /\ trace result.2 = trace loop.2
  end.
Proof.
  cbv zeta. split.
  { unfold FetchEvent.request. simpl.
    rewrite lookup_total_insert_eq. apply Request_clone_eq. }
  rewrite dispatchFetch_unfold. cbv zeta.
  destruct (fetch_listeners _ _ 0 _) as [[r|e| |] s1]; simpl; try done.
  destruct upstreamUrl as [u|]; [|done].
  rewrite Headers_has_delete.
  destruct (await (fetch _)) as [r|e|]; simpl;
    repeat (split; [done|]); [by eexists|done|done].
Qed.

(** C3, as stated, fails: after a dispatch that falls back to the upstream
    the caller's request has lost its "Host" header, and what is fetched
    is that request and not the duplicate, on which a listener had set a
    header. *)
Lemma dispatchFetch_fallback_changes_original :
  let result :=
    dispatchFetch sample_fetch
      (register_all "fetch" [marks_request] new_EventsModule)
      sample_request (Some sample_upstream) empty_store in
  headers sample_request
  = [("Host", "localhost:8787"); ("Accept", "text/html")] /\
  headers result.1.2 = [("Accept", "text/html")] /\
  trace result.2
  = [ObsListener "fetch" 0;
     ObsFetch {| url := "http://localhost:8787/"; method := "GET";
                 headers := [("Accept", "text/html")];
                 body := EmptyString |}] /\
  Headers_delete "host" (headers (FetchEvent.request 0 result.2))
  = [("Accept", "text/html"); ("x-seen", "1")].
Proof. repeat split. Qed.

(** ** The pass-through flag *)


(** A dispatch allocates exactly one event, keeps the store fresh, and
    leaves the entries of every other event as they were. *)
Lemma dispatchFetch_frame fetch this request upstreamUrl s :
  fresh s ->
  let s' := (dispatchFetch fetch this request upstreamUrl s).2 in
  next_event s' = S (next_event s) /\
  fresh s' /\
  forall j, j <> next_event s ->
    event_request s' !! j = event_request s !! j /\
    responseMap s' !! j = responseMap s !! j /\
    passThroughMap s' !! j = passThroughMap s !! j /\
    waitUntilMap s' !! j = waitUntilMap s !! j.
Proof.
  intros Hf.
  assert (Hloop :
    let s1 := (fetch_listeners (next_event s)
                 (default [] (_listeners this !! "fetch")) 0
                 (FetchEvent.new (Request_clone request) s).2).2 in
    next_event s1 = S (next_event s) /\
    forall j, j <> next_event s ->
      event_request s1 !! j = event_request s !! j /\
      responseMap s1 !! j = responseMap s !! j /\
      passThroughMap s1 !! j = passThroughMap s !! j /\
      waitUntilMap s1 !! j = waitUntilMap s !! j).
  { cbv zeta.
    destruct (fetch_listeners_frame (next_event s)
                (default [] (_listeners this !! "fetch")) 0
                (FetchEvent.new (Request_clone request) s).2)
      as (Hn & Hfr & _ & _).
    split; [done|]. intros j Hj. destruct (Hfr j Hj) as (-> & -> & -> & ->).
    simpl. by rewrite !lookup_insert_ne. }
  assert (Hsame :
    let s1 := (fetch_listeners (next_event s)
                 (default [] (_listeners this !! "fetch")) 0
                 (FetchEvent.new (Request_clone request) s).2).2 in
    let s' := (dispatchFetch fetch this request upstreamUrl s).2 in
    next_event s' = next_event s1 /\ event_request s' = event_request s1 /\
    responseMap s' = responseMap s1 /\ passThroughMap s' = passThroughMap s1 /\
    waitUntilMap s' = waitUntilMap s1).
  { cbv zeta. rewrite dispatchFetch_unfold. cbv zeta.
    destruct (fetch_listeners _ _ 0 _) as [[r|e| |] s1]; simpl; try done.
    destruct upstreamUrl; [|done]. by destruct (await _). }
  cbv zeta in *. destruct Hsame as (En & Er & Ep & Et & Ew).
  destruct Hloop as [Hn Hfr].
  split; [by rewrite En|]. split.
  - intros i Hi. rewrite En, Hn in Hi. rewrite Er, Ep, Et, Ew.
    destruct (Hfr i) as (-> & -> & -> & ->); [lia|]. apply Hf. lia.
  - intros j Hj. rewrite Er, Ep, Et, Ew. by apply Hfr.
Qed.



(** ** Background tasks *)

Lemma first_rejection_app {A} now (ps qs : list (Promise A)) best :
  first_rejection now (ps ++ qs) best
  = first_rejection now qs (first_rejection now ps best).
Proof.
  revert best. induction ps as [|p ps IH]; intros best; simpl; [done|].
  destruct p as [t [v|e]|]; by rewrite IH.
Qed.

(** A task that fulfils, added at the end, adds its value at the end. *)
Lemma Promise_all_snoc_fulfilled {A} now (ps : list (Promise A)) vs t v :
  Promise_all now ps = Returns vs ->
  Promise_all now (ps ++ [Settles t (Fulfilled v)]) = Returns (vs ++ [v]).
Proof.
  unfold Promise_all. rewrite first_rejection_app, all_fulfilled_app. simpl.
  destruct (first_rejection now ps None) as [[tb eb]|]; [done|].
  destruct (all_fulfilled ps) as [vs'|]; [|done]. by intros [= <-].
Qed.

Lemma FetchEvent_waitUntil_lookup event p s :
  waitUntilMap (FetchEvent.waitUntil event p s) !! event
  = (fun ps => ps ++ [p]) <$> waitUntilMap s !! event.
Proof. simpl. apply lookup_alter_eq. Qed.

Lemma FetchEvent_waitUntil_foldl event later :
  forall s,
    waitUntilMap (foldl (fun st p => FetchEvent.waitUntil event p st) s later)
      !! event
    = (fun ps => ps ++ later) <$> waitUntilMap s !! event.
Proof.
  induction later as [|p later IH]; intros s; simpl.
  - destruct (waitUntilMap s !! event); simpl; [|done]. by rewrite app_nil_r.
  - rewrite IH, FetchEvent_waitUntil_lookup.
    destruct (waitUntilMap s !! event); simpl; [|done].
    by rewrite <- app_assoc.
Qed.

(** A response that [dispatchFetch] returns carries the accessor of the
    event of that dispatch, and the task list of the event is in place. *)
Lemma dispatchFetch_returns fetch this request upstreamUrl s rw request' s' :
  dispatchFetch fetch this request upstreamUrl s = (Returns rw, request', s') ->
  waitUntil rw = await_waitUntil (next_event s) /\
  is_Some (waitUntilMap s' !! next_event s).
Proof.
  rewrite dispatchFetch_unfold. cbv zeta.
  destruct (fetch_listeners_frame (next_event s)
              (default [] (_listeners this !! "fetch")) 0
              (FetchEvent.new (Request_clone request) s).2)
    as (_ & _ & Hw & _).
  assert (Hw0 : is_Some (waitUntilMap (FetchEvent.new (Request_clone request) s).2
                           !! next_event s)).
  { simpl. rewrite lookup_insert_eq. by eexists. }
  specialize (Hw Hw0).
  destruct (fetch_listeners _ _ 0 _) as [[r|e| |] s1]; simpl in *; try done.
  - by intros [= <- _ <-].
  - destruct upstreamUrl; [|done].
    destruct (await _); [|done|done]. by intros [= <- _ <-].
Qed.

(** C10. The accessor attached to a response that [dispatchFetch] returned
    is a reading of the store it is invoked in: it changes nothing, so it
    can be invoked again and again, and each invocation aggregates the
    task list of the event as it is then. A task pushed through a kept
    [waitUntil] of the event after the dispatch returned is part of what a
    later invocation aggregates, and when the tasks fulfil its value is
    the last of the result array. *)
Theorem waitUntil_reads_anew fetch this request upstreamUrl s rw request' s' :
  dispatchFetch fetch this request upstreamUrl s = (Returns rw, request', s') ->
  let event := next_event s in
  exists ps,
    waitUntilMap s' !! event = Some ps /\
    (forall now st, waitUntil rw now st = await_waitUntil event now st) /\
    (forall now, waitUntil rw now s' = Promise_all now ps) /\
    (forall later now,
       waitUntil rw now
         (foldl (fun st p => FetchEvent.waitUntil event p st) s' later)
       = Promise_all now (ps ++ later)) /\
    (forall now vs t v,
       waitUntil rw now s' = Returns vs ->
       waitUntil rw now
         (FetchEvent.waitUntil event (Settles t (Fulfilled v)) s')
       = Returns (vs ++ [v])).
Proof.
  intros Hd event.
  destruct (dispatchFetch_returns _ _ _ _ _ _ _ _ Hd) as [Hacc [ps Hps]].
  fold event in Hacc, Hps. exists ps. split; [done|].
  split. { intros now st. by rewrite Hacc. }
  assert (Hnow : forall now, waitUntil rw now s' = Promise_all now ps).
  { intros now. rewrite Hacc. unfold await_waitUntil. by rewrite Hps. }
  split; [done|]. split.
  - intros later now. rewrite Hacc. unfold await_waitUntil.
    rewrite FetchEvent_waitUntil_foldl, Hps. done.
  - intros now vs t v Hvs. rewrite Hnow in Hvs. rewrite Hacc.
    unfold await_waitUntil. rewrite FetchEvent_waitUntil_lookup, Hps. simpl.
    by apply Promise_all_snoc_fulfilled.
Qed.

(** At a concrete input: the listener registers one task and responds; a
    second task is pushed after the dispatch has returned. *)
Lemma waitUntil_reads_anew_witness :
  let d :=
    dispatchFetch sample_fetch
      (register_all "fetch" [responder] new_EventsModule)
      sample_request None empty_store in
  exists rw,
    d.1.1 = Returns rw /\
    waitUntil rw 10 d.2 = Returns [VNumber 1] /\
    waitUntil rw 10
      (FetchEvent.waitUntil 0 (Settles 20 (Fulfilled (VNumber 2))) d.2)
    = Returns [VNumber 1; VNumber 2].
Proof.
  cbv zeta.
  exists {| response := ok_response; waitUntil := await_waitUntil 0 |}.
  split; [reflexivity|]. split; [reflexivity|].
  destruct (waitUntil_reads_anew sample_fetch
              (register_all "fetch" [responder] new_EventsModule)
              sample_request None empty_store
              {| response := ok_response; waitUntil := await_waitUntil 0 |}
              sample_request
              (dispatchFetch sample_fetch
                 (register_all "fetch" [responder] new_EventsModule)
                 sample_request None empty_store).2 eq_refl)
    as (ps & _ & _ & _ & _ & H).
  apply (H 10 [VNumber 1] 20 (VNumber 2)). reflexivity.
Defined.



(** ** Dispatch of a scheduled event *)

Lemma thrown_by_None_executed b acts :
  thrown_by b acts = None -> executed b acts = acts.
Proof.
  induction acts as [|a acts IH]; simpl; [done|].
  destruct (raises b a); [done|]. intros H. by rewrite IH.
Qed.

Lemma listener_calls_scheduled_trace e ls :
  forall index,
    listener_calls "scheduled" (scheduled_trace e index ls)
    = seq index (length ls).
Proof.
  induction ls as [|l ls IH]; intros index; [done|].
  cbn [scheduled_trace length seq].
  rewrite listener_calls_cons, listener_calls_app, listener_calls_effects.
  simpl. by rewrite IH.
Qed.

(** The loop when no listener throws: every listener has its turn, in
    order, and the tasks are appended in the order of registration. *)
Lemma scheduled_listeners_ok event e ls :
  forall index s,
    (forall l, l ∈ ls -> thrown_by false (l e) = None) ->
    (scheduled_listeners event e ls index s).2 = None /\
    trace (scheduled_listeners event e ls index s).1
    = trace s ++ scheduled_trace e index ls /\
    waitUntilMap (scheduled_listeners event e ls index s).1 !! event
    = (fun ps => ps ++ scheduled_tasks e ls) <$> waitUntilMap s !! event.
Proof.
  induction ls as [|l ls IH]; intros index s Hno; simpl.
  { rewrite app_nil_r. split; [done|]. split; [done|].
    destruct (waitUntilMap s !! event); simpl; [|done]. by rewrite app_nil_r. }
  set (s0 := log (ObsListener "scheduled" index) s).
  pose proof (run_actions_thrown false event (l e) s0) as Ht.
  pose proof (run_actions_trace false event (l e) s0) as Htr.
  pose proof (run_actions_waitUntilMap false event (l e) s0) as Hw.
  rewrite (Hno l) in Ht by apply list_elem_of_here.
  destruct (run_actions false event (l e) s0) as [s1 o]. simpl in *. subst o.
  destruct (IH (S index) s1) as (H1 & H2 & H3).
  { intros l' Hl'. apply Hno. by apply list_elem_of_further. }
  split; [done|]. split.
  - rewrite H2, Htr. by rewrite <- !app_assoc.
  - rewrite H3, Hw. destruct (waitUntilMap s !! event); simpl; [|done].
    by rewrite <- app_assoc.
Qed.

(** The loop is left without an error only if no listener threw. *)
Lemma scheduled_listeners_None event e ls :
  forall index s,
    (scheduled_listeners event e ls index s).2 = None ->
    forall l, l ∈ ls -> thrown_by false (l e) = None.
Proof.
  induction ls as [|l ls IH]; intros index s Hnone l' Hl'.
  { by apply elem_of_nil in Hl'. }
  simpl in Hnone.
  set (s0 := log (ObsListener "scheduled" index) s) in *.
  pose proof (run_actions_thrown false event (l e) s0) as Ht.
  destruct (run_actions false event (l e) s0) as [s1 o]. simpl in *. subst o.
  destruct (thrown_by false (l e)) eqn:E; [done|].
  apply elem_of_cons in Hl' as [->|Hl']; [done|]. by eapply IH.
Qed.

(** The loop up to the first listener that throws: the listeners before
    it and that one are called, the loop ends with what it threw. *)
Lemma scheduled_listeners_throw event e pre (l : Listener) post err :
  forall index s,
    (forall l', l' ∈ pre -> thrown_by false (l' e) = None) ->
    thrown_by false (l e) = Some err ->
    (scheduled_listeners event e (pre ++ l :: post) index s).2 = Some err /\
    exists tr,
      trace (scheduled_listeners event e (pre ++ l :: post) index s).1
      = trace s ++ tr /\
      listener_calls "scheduled" tr = seq index (S (length pre)).
Proof.
  induction pre as [|l0 pre IH]; intros index s Hno Hl; simpl.
  - set (s0 := log (ObsListener "scheduled" index) s).
    pose proof (run_actions_thrown false event (l e) s0) as Ht.
    pose proof (run_actions_trace false event (l e) s0) as Htr.
    destruct (run_actions false event (l e) s0) as [s1 o]. simpl in *.
    subst o. rewrite Hl. simpl. split; [done|].
    exists (ObsListener "scheduled" index :: effects_of false (l e)).
    split; [by rewrite Htr, <- app_assoc|].
    by rewrite listener_calls_cons, listener_calls_effects.
  - set (s0 := log (ObsListener "scheduled" index) s).
    pose proof (run_actions_thrown false event (l0 e) s0) as Ht.
    pose proof (run_actions_trace false event (l0 e) s0) as Htr.
    rewrite (Hno l0) in Ht by apply list_elem_of_here.
    destruct (run_actions false event (l0 e) s0) as [s1 o]. simpl in *.
    subst o.
    destruct (IH (S index) s1) as (H1 & tr & H2 & H3); [|done|].
    { intros l' Hl'. apply Hno. by apply list_elem_of_further. }
    split; [done|].
    exists (ObsListener "scheduled" index :: effects_of false (l0 e) ++ tr).
    split; [by rewrite H2, Htr, <- !app_assoc|].
    rewrite listener_calls_cons, listener_calls_app, listener_calls_effects.
    simpl. by rewrite H3.
Qed.

Lemma dispatchScheduled_unfold this st cr now s :
  dispatchScheduled this st cr now s
  = let event := next_event s in
    let e := ScheduledView (default now st) (default EmptyString cr) in
    let s0 := (ScheduledEvent.new (default now st) (default EmptyString cr)
                 s).2 in
    match scheduled_listeners event e
            (default [] (_listeners this !! "scheduled")) 0 s0
    with
    | (s1, Some err) => (Throws err, s1)
    | (s1, None) => (await_waitUntil event now s1, s1)
    end.
Proof. reflexivity. Qed.

(** C6 (amended). In a scheduled dispatch in which no listener throws
    during its synchronous run, every listener registered for
    "scheduled" is called, in the order of registration, each run complete
    before the next starts; only then are the tasks aggregated, all of
    them, in the order they were registered. Whether a task will reject
    plays no part in which listeners are called: a rejection shows in the
    aggregate only. *)
Theorem dispatchScheduled_all_listeners this st cr now s :
  let ls := default [] (_listeners this !! "scheduled") in
  let e := ScheduledView (default now st) (default EmptyString cr) in
  (forall l, l ∈ ls -> thrown_by false (l e) = None) ->
  let result := dispatchScheduled this st cr now s in
  trace_since s result.2 = scheduled_trace e 0 ls /\
  listener_calls "scheduled" (trace_since s result.2) = seq 0 (length ls) /\
  waitUntilMap result.2 !! next_event s = Some (scheduled_tasks e ls) /\
  result.1 = Promise_all now (scheduled_tasks e ls).
Proof.
  intros ls e Hno result. subst result.
  rewrite dispatchScheduled_unfold. cbv zeta. fold ls e.
  destruct (scheduled_listeners_ok (next_event s) e ls 0
              (ScheduledEvent.new (default now st) (default EmptyString cr) s).2
              Hno) as (Hnone & Htr & Hw).
  destruct (scheduled_listeners _ e ls 0 _) as [s1 o]. simpl in *. subst o.
  simpl. rewrite lookup_insert_eq in Hw. simpl in Hw.
  rewrite (trace_since_app _ _ _ Htr).
  split; [done|]. split; [apply listener_calls_scheduled_trace|].
  split; [done|]. unfold await_waitUntil. by rewrite Hw.
Qed.

(** At a concrete input: the task of the first listener will reject; the
    second listener is called all the same and the rejection is the
    result of the aggregation. *)
Lemma dispatchScheduled_all_listeners_witness :
  let result :=
    dispatchScheduled
      (register_all "scheduled" [registers_rejecting; registers_early]
         new_EventsModule)
      (Some 1000) None 1 empty_store in
  listener_calls "scheduled" (trace_since empty_store result.2) = [0; 1] /\
  result.1 = Throws boom.
Proof.
  destruct (dispatchScheduled_all_listeners
              (register_all "scheduled" [registers_rejecting; registers_early]
                 new_EventsModule)
              (Some 1000) None 1 empty_store) as (_ & H2 & _ & H4).
  - intros l Hl. vm_compute in Hl.
    apply elem_of_cons in Hl as [->|Hl]; [reflexivity|].
    apply elem_of_cons in Hl as [->|Hl]; [reflexivity|].
    by apply elem_of_nil in Hl.
  - split; [exact H2 | exact H4].
Defined.

(** C6, as stated, fails: the first of two scheduled listeners throws
    during its run; the second is never called and the dispatch fails with
    what was thrown. *)
Lemma dispatchScheduled_listener_throws :
  let this :=
    register_all "scheduled" [throws_at_once; late_listener]
      new_EventsModule in
  let result := dispatchScheduled this None None 1 empty_store in
  _listeners this !! "scheduled" = Some [throws_at_once; late_listener] /\
  result.1 = Throws boom /\
  listener_calls "scheduled" (trace_since empty_store result.2) = [0].
Proof. repeat split. Qed.

(** ** The adapter for module-style scheduled handlers *)

Lemma Promise_all_Returns {A} now (ps : list (Promise A)) vs :
  Promise_all now ps = Returns vs -> all_fulfilled ps = Some vs.
Proof.
  unfold Promise_all. destruct (first_rejection now ps None) as [[tb eb]|].
  - done.
  - destruct (all_fulfilled ps); [|done]. by intros [= ->].
Qed.

Lemma all_fulfilled_app_Some {A} (ps qs : list (Promise A)) vs :
  all_fulfilled (ps ++ qs) = Some vs ->
  exists v1 v2, vs = v1 ++ v2 /\ all_fulfilled ps = Some v1 /\
                all_fulfilled qs = Some v2.
Proof.
  rewrite all_fulfilled_app.
  destruct (all_fulfilled ps) as [v1|]; [|done].
  destruct (all_fulfilled qs) as [v2|]; [|done].
  intros [= <-]. by exists v1, v2.
Qed.

Lemma scheduled_ctx_tasks calls :
  omap is_waitUntil (map scheduled_ctx_action calls) = ctx_tasks calls.
Proof.
  unfold ctx_tasks. induction calls as [|a calls IH]; [done|].
  change (omap is_waitUntil (map scheduled_ctx_action (a :: calls)))
    with (match is_waitUntil (scheduled_ctx_action a) with
          | Some p => p :: omap is_waitUntil (map scheduled_ctx_action calls)
          | None => omap is_waitUntil (map scheduled_ctx_action calls)
          end).
  change (omap is_ctx_waitUntil (a :: calls))
    with (match is_ctx_waitUntil a with
          | Some p => p :: omap is_ctx_waitUntil calls
          | None => omap is_ctx_waitUntil calls
          end).
  rewrite IH. by destruct a.
Qed.

Lemma thrown_by_app_None b xs ys :
  thrown_by b (xs ++ ys) = None -> thrown_by b xs = None.
Proof.
  induction xs as [|a xs IH]; simpl; [done|]. by destruct (raises b a).
Qed.

(** The tasks of the turn of the adapter when it does not throw: those
    the handler registered through its context, then the one made of what
    the handler returned. *)
Lemma module_scheduled_listener_tasks handler environment t c :
  let e := ScheduledView t c in
  let controller := {| scheduledTime := t; cron := c |} in
  thrown_by false (module_scheduled_listener handler environment e) = None ->
  thrown_by false
    (map scheduled_ctx_action (handler controller environment).1) = None /\
  tasks_of false (module_scheduled_listener handler environment e)
  = ctx_tasks (handler controller environment).1
      ++ [Promise_resolve (handler controller environment).2].
Proof.
  cbv zeta. unfold tasks_of. simpl.
  destruct (handler {| scheduledTime := t; cron := c |} environment)
    as [calls res]. simpl.
  intros Hno. split; [by eapply thrown_by_app_None|].
  rewrite (thrown_by_None_executed _ _ Hno), omap_app, scheduled_ctx_tasks.
  done.
Qed.

(** ** The listener registry *)

(** A tag that is not a property of [Object.prototype]: the listener is
    appended to the sequence of its tag, created empty when the tag is new,
    and the sequences of the other tags are left alone; a warning is logged
    exactly when the tag is not one of the two recognized ones. *)
Lemma addEventListener_appends type listener this s :
  type ∉ Object_prototype_keys ->
  let r := addEventListener type listener this s in
  r.1.1 = Returns () /\
  _listeners r.1.2 !! type
  = Some (default [] (_listeners this !! type) ++ [listener]) /\
  (forall other, other <> type ->
     _listeners r.1.2 !! other = _listeners this !! other) /\
  r.2 = (if unrecognized type
         then log_warn (VString (invalid_type_message type)) s
         else s).
Proof.
  intros Hproto. unfold addEventListener, has_property. cbv zeta.
  rewrite (bool_decide_false (type ∈ Object_prototype_keys)) by done.
  rewrite orb_false_r.
  destruct (_listeners this !! type) as [arr|] eqn:E.
  - rewrite bool_decide_true by (by eexists). simpl. rewrite E. simpl.
    rewrite lookup_insert_eq. split; [done|]. split; [done|].
    split; [|done]. intros other Hne. by rewrite lookup_insert_ne.
  - rewrite bool_decide_false by (by intros [? ?]). simpl.
    rewrite lookup_insert_eq. simpl. rewrite lookup_insert_eq.
    split; [done|]. split; [done|]. split; [|done].
    intros other Hne. by rewrite !lookup_insert_ne.
Qed.

(** The two dispatch algorithms read the sequences of "fetch" and of
    "scheduled" and nothing else of the registry. *)
Lemma dispatch_reads_recognized_only fetch this this' :
  (_listeners this' !! "fetch" = _listeners this !! "fetch" ->
   forall request upstreamUrl s,
     dispatchFetch fetch this' request upstreamUrl s
     = dispatchFetch fetch this request upstreamUrl s) /\
  (_listeners this' !! "scheduled" = _listeners this !! "scheduled" ->
   forall st cr now s,
     dispatchScheduled this' st cr now s = dispatchScheduled this st cr now s).
Proof.
  split; intros H; intros.
  - rewrite !dispatchFetch_unfold. by rewrite H.
  - rewrite !dispatchScheduled_unfold. by rewrite H.
Qed.

(** X11. Registering under a tag that is neither recognized nor a
    property of [Object.prototype] logs the warning, stores the listener,
    and changes the outcome of no dispatch. *)
Lemma addEventListener_unrecognized fetch type listener this s :
  unrecognized type = true ->
  type ∉ Object_prototype_keys ->
  let r := addEventListener type listener this s in
  r.1.1 = Returns () /\
  trace r.2 = trace s ++ [ObsWarn (VString (invalid_type_message type))] /\
  _listeners r.1.2 !! type
  = Some (default [] (_listeners this !! type) ++ [listener]) /\
  (forall request upstreamUrl s0,
     dispatchFetch fetch r.1.2 request upstreamUrl s0
     = dispatchFetch fetch this request upstreamUrl s0) /\
  (forall st cr now s0,
     dispatchScheduled r.1.2 st cr now s0
     = dispatchScheduled this st cr now s0).
Proof.
  intros Hun Hproto r.
  destruct (addEventListener_appends type listener this s Hproto)
    as (H1 & H2 & H3 & H4).
  fold r in H1, H2, H3, H4. rewrite Hun in H4.
  unfold unrecognized in Hun. apply andb_prop in Hun as [Hf Hs].
  apply bool_decide_eq_true in Hf. apply bool_decide_eq_true in Hs.
  split; [done|]. split; [by rewrite H4|]. split; [done|].
  destruct (dispatch_reads_recognized_only fetch this r.1.2) as [Hdf Hds].
  split.
  - apply Hdf. apply H3. congruence.
  - apply Hds. apply H3. congruence.
Qed.

(** C7 (the code departs from it). Registering under "toString", a tag
    that is not recognized: the warning is logged, but the listener is not
    stored. [type in this._listeners] finds the property that the object
    inherits from [Object.prototype], no array is created, and the call of
    [push] on what is read throws a TypeError. *)
Theorem addEventListener_prototype_key :
  let r :=
    addEventListener "toString" quiet_listener new_EventsModule empty_store in
  unrecognized "toString" = true /\
  trace r.2 = [ObsWarn (VString (invalid_type_message "toString"))] /\
  r.1.1 = Throws (TypeError "this._listeners[type].push is not a function") /\
  _listeners r.1.2 !! "toString" = None.
Proof. repeat split. Qed.

(** ** The adapter for module-style scheduled handlers, registered *)

Lemma scheduled_not_prototype_key : "scheduled" ∉ Object_prototype_keys.
Proof.
  intros Hin. unfold Object_prototype_keys in Hin.
  repeat (apply elem_of_cons in Hin as [Hin|Hin]; [discriminate Hin|]).
  by apply elem_of_nil in Hin.
Qed.

(** The adapter does not throw when the handler does not. *)
Lemma module_scheduled_listener_returns handler environment t c :
  thrown_by false
    (map scheduled_ctx_action
       (handler {| scheduledTime := t; cron := c |} environment).1) = None ->
  thrown_by false
    (module_scheduled_listener handler environment (ScheduledView t c)) = None.
Proof.
  simpl. destruct (handler _ environment) as [calls res]. simpl.
  induction (map scheduled_ctx_action calls) as [|a l IH]; [done|].
  simpl. destruct (raises false a); [done|]. apply IH.
Qed.

(** The loop over listeners that do not throw, followed by others. *)
Lemma scheduled_listeners_app event e xs ys :
  forall index s,
    (forall l, l ∈ xs -> thrown_by false (l e) = None) ->
    scheduled_listeners event e (xs ++ ys) index s
    = scheduled_listeners event e ys (index + length xs)
        (scheduled_listeners event e xs index s).1.
Proof.
  induction xs as [|l xs IH]; intros index s Hno; simpl.
  { by rewrite Nat.add_0_r. }
  set (s0 := log (ObsListener "scheduled" index) s).
  pose proof (run_actions_thrown false event (l e) s0) as Ht.
  rewrite (Hno l) in Ht by apply list_elem_of_here.
  destruct (run_actions false event (l e) s0) as [s1 o]. simpl in Ht. subst o.
  rewrite IH by (intros l' Hl'; by apply Hno, list_elem_of_further).
  by replace (S index + length xs) with (index + S (length xs)) by lia.
Qed.

(** Whatever the listeners do, the loop only adds to the task list of the
    event and to the trace. *)
Lemma scheduled_listeners_grows event e ls :
  forall index s,
    exists rest tr,
      waitUntilMap (scheduled_listeners event e ls index s).1 !! event
      = (fun ps => ps ++ rest) <$> waitUntilMap s !! event /\
      trace (scheduled_listeners event e ls index s).1 = trace s ++ tr /\
      ((scheduled_listeners event e ls index s).2 = None ->
       rest = scheduled_tasks e ls).
Proof.
  induction ls as [|l ls IH]; intros index s; simpl.
  { exists [], []. rewrite app_nil_r. split; [|done].
    destruct (waitUntilMap s !! event); simpl; [|done]. by rewrite app_nil_r. }
  set (s0 := log (ObsListener "scheduled" index) s).
  pose proof (run_actions_thrown false event (l e) s0) as Ht.
  pose proof (run_actions_trace false event (l e) s0) as Htr.
  pose proof (run_actions_waitUntilMap false event (l e) s0) as Hw.
  destruct (run_actions false event (l e) s0) as [s1 [err|]]; simpl in *.
  - exists (tasks_of false (l e)),
      (ObsListener "scheduled" index :: effects_of false (l e)).
    split; [done|]. split; [by rewrite Htr, <- app_assoc|done].
  - destruct (IH (S index) s1) as (rest & tr & Hw2 & Htr2 & Hrest).
    exists (tasks_of false (l e) ++ rest),
      (ObsListener "scheduled" index :: effects_of false (l e) ++ tr).
    split; [|split].
    + rewrite Hw2, Hw. destruct (waitUntilMap s !! event); simpl; [|done].
      by rewrite <- app_assoc.
    + rewrite Htr2, Htr. by rewrite <- !app_assoc.
    + intros Hnone. by rewrite (Hrest Hnone).
Qed.

(** The first listener of the loop is called, whatever follows. *)
Lemma scheduled_listeners_head_called event e (l : Listener) ls index s :
  exists tr,
    trace (scheduled_listeners event e (l :: ls) index s).1
    = trace s ++ ObsListener "scheduled" index :: tr.
Proof.
  simpl. set (s0 := log (ObsListener "scheduled" index) s).
  pose proof (run_actions_trace false event (l e) s0) as Htr.
  destruct (run_actions false event (l e) s0) as [s1 [err|]]; simpl in *.
  - exists (effects_of false (l e)). by rewrite Htr, <- app_assoc.
  - destruct (scheduled_listeners_grows event e ls (S index) s1)
      as (_ & tr & _ & Htr2 & _).
    exists (effects_of false (l e) ++ tr).
    rewrite Htr2, Htr. by rewrite <- !app_assoc.
Qed.

(** C9 (amended). [addModuleScheduledListener] appends its adapter to the
    listeners of "scheduled", without a warning. In every scheduled
    dispatch over these listeners, and any registered later, in which no
    listener registered before the adapter throws during its run, the
    adapter is called. When the handler returns, the task list of the
    event holds, after the tasks of the earlier listeners, the tasks the
    handler registered through its context during the call and then
    [Promise.resolve] of what it returned; and when the dispatch returns
    a result array, the array holds the results of the tasks of the
    handler before the one of its return value. *)
Theorem addModuleScheduledListener_order handler environment this s0
    post that st cr now s :
  let registered := addModuleScheduledListener handler environment this s0 in
  let pre := default [] (_listeners this !! "scheduled") in
  let e := ScheduledView (default now st) (default EmptyString cr) in
  let controller :=
    {| scheduledTime := default now st; cron := default EmptyString cr |} in
  let calls := (handler controller environment).1 in
  let res := (handler controller environment).2 in
  default [] (_listeners that !! "scheduled")
  = default [] (_listeners registered.1.2 !! "scheduled") ++ post ->
  (forall l, l ∈ pre -> thrown_by false (l e) = None) ->
  let result := dispatchScheduled that st cr now s in
  registered.1.1 = Returns () /\
  registered.2 = s0 /\
  _listeners registered.1.2 !! "scheduled"
  = Some (pre ++ [module_scheduled_listener handler environment]) /\
  length pre ∈ listener_calls "scheduled" (trace_since s result.2) /\
  (thrown_by false (map scheduled_ctx_action calls) = None ->
   (exists rest,
      waitUntilMap result.2 !! next_event s
      = Some (scheduled_tasks e pre
                ++ (ctx_tasks calls ++ [Promise_resolve res]) ++ rest)) /\
   forall vs, result.1 = Returns vs ->
     exists vbefore vown vres vafter,
       vs = vbefore ++ (vown ++ [vres]) ++ vafter /\
       all_fulfilled (scheduled_tasks e pre) = Some vbefore /\
       all_fulfilled (ctx_tasks calls) = Some vown /\
       await (Promise_resolve res) = Returns vres).
Proof.
  intros registered pre e controller calls res Hthat Hpre result.
  set (adapter := module_scheduled_listener handler environment).
  destruct (addEventListener_appends "scheduled" adapter this s0
              scheduled_not_prototype_key) as (Hr1 & Hr2 & _ & Hr4).
  change (addEventListener "scheduled" adapter this s0) with registered
    in Hr1, Hr2, Hr4.
  fold pre in Hr2. change (unrecognized "scheduled") with false in Hr4.
  cbv iota in Hr4.
  split; [done|]. split; [done|]. split; [done|].
  rewrite Hr2 in Hthat. simpl default in Hthat.
  set (s1 := (ScheduledEvent.new (default now st) (default EmptyString cr) s).2).
  assert (Ht0 : trace s1 = trace s) by done.
  (* the dispatch and its loop *)
  assert (Hres : result.2
                 = (scheduled_listeners (next_event s) e
                      ((pre ++ [adapter]) ++ post) 0 s1).1 /\
                 forall vs, result.1 = Returns vs ->
                   result.1 = await_waitUntil (next_event s) now result.2).
  { subst result. rewrite dispatchScheduled_unfold. cbv zeta.
    rewrite Hthat. fold e s1.
    destruct (scheduled_listeners (next_event s) e
                ((pre ++ [adapter]) ++ post) 0 s1) as [s3 [err|]]; simpl.
    - split; [done|]. by intros vs.
    - split; [done|]. by intros vs. }
  destruct Hres as [Hstore Hagg]. rewrite Hstore.
  split.
  { (* the adapter is called *)
    destruct (scheduled_listeners_ok (next_event s) e pre 0 s1 Hpre)
      as (_ & Htr1 & _).
    pose proof (scheduled_listeners_app (next_event s) e pre
                  (adapter :: post) 0 s1 Hpre) as Happ.
    destruct (scheduled_listeners_head_called (next_event s) e adapter post
                (0 + length pre)
                (scheduled_listeners (next_event s) e pre 0 s1).1)
      as (tr & Htr2).
    rewrite <- Happ, Htr1, Ht0 in Htr2.
    rewrite <- (app_assoc (trace s)) in Htr2.
    replace ((pre ++ [adapter]) ++ post) with (pre ++ adapter :: post)
      by (by rewrite <- app_assoc).
    rewrite (trace_since_app _ _ _ Htr2), listener_calls_app,
      listener_calls_scheduled_trace, listener_calls_cons.
    apply elem_of_app. right. apply list_elem_of_here. }
  intros Hret.
  (* the listeners up to the adapter do not throw *)
  assert (Hadapter : thrown_by false (adapter e) = None).
  { by apply module_scheduled_listener_returns. }
  assert (Hprefix : forall l, l ∈ pre ++ [adapter] ->
                      thrown_by false (l e) = None).
  { intros l [Hl| ->%list_elem_of_singleton]%elem_of_app; [by apply Hpre|done]. }
  destruct (module_scheduled_listener_tasks handler environment _ _ Hadapter)
    as [_ Htasks].
  fold e controller in Htasks. fold calls res adapter in Htasks.
  assert (Hsplit : scheduled_tasks e (pre ++ [adapter])
                   = scheduled_tasks e pre
                       ++ (ctx_tasks calls ++ [Promise_resolve res])).
  { unfold scheduled_tasks. rewrite flat_map_app. cbn [flat_map].
    by rewrite Htasks, app_nil_r. }
  destruct (scheduled_listeners_ok (next_event s) e (pre ++ [adapter]) 0 s1
              Hprefix) as (_ & _ & Hw1).
  pose proof (scheduled_listeners_app (next_event s) e (pre ++ [adapter]) post
                0 s1 Hprefix) as Happ.
  set (s2 := (scheduled_listeners (next_event s) e (pre ++ [adapter]) 0 s1).1)
    in *.
  destruct (scheduled_listeners_grows (next_event s) e post
              (0 + length (pre ++ [adapter])) s2)
    as (rest & tr & Hw2 & _ & _).
  rewrite <- Happ in Hw2.
  assert (Hw0 : waitUntilMap s1 !! next_event s = Some []).
  { subst s1. simpl. apply lookup_insert_eq. }
  rewrite Hw0 in Hw1. simpl in Hw1. rewrite Hw1 in Hw2. simpl in Hw2.
  rewrite Hsplit in Hw2.
  rewrite <- (app_assoc (scheduled_tasks e pre)) in Hw2.
  split; [by exists rest|].
  intros vs Hvs. specialize (Hagg vs Hvs). rewrite Hvs, Hstore in Hagg.
  unfold await_waitUntil in Hagg. rewrite Hw2 in Hagg. symmetry in Hagg.
  apply Promise_all_Returns in Hagg.
  apply all_fulfilled_app_Some in Hagg as (vbefore & v2 & -> & Hb & H2).
  apply all_fulfilled_app_Some in H2 as (v3 & vafter & -> & H3 & Ha).
  apply all_fulfilled_app_Some in H3 as (vown & v4 & -> & Ho & H4).
  destruct (Promise_resolve res) as [t [vres|err]|] eqn:Er; try done.
  simpl in H4. injection H4 as <-.
  exists vbefore, vown, vres, vafter. done.
Qed.

(** At a concrete input: a listener registered before registers a task,
    the handler registers a task that settles late and returns a number,
    a listener is registered after. *)
Lemma addModuleScheduledListener_order_witness :
  let that :=
    register_all "scheduled" [late_listener]
      (addModuleScheduledListener sample_scheduled_handler ∅
         (register_all "scheduled" [registers_early] new_EventsModule)
         empty_store).1.2 in
  let result :=
    dispatchScheduled that (Some 1000) (Some "30 * * * *") 1 empty_store in
  result.1 = Returns [VNumber 2; VString "30 * * * *"; VNumber 1000] /\
  1 ∈ listener_calls "scheduled" (trace_since empty_store result.2) /\
  exists vbefore vown vres vafter,
    [VNumber 2; VString "30 * * * *"; VNumber 1000]
    = vbefore ++ (vown ++ [vres]) ++ vafter /\
    all_fulfilled
      (scheduled_tasks (ScheduledView 1000 "30 * * * *") [registers_early])
    = Some vbefore /\
    all_fulfilled
      (ctx_tasks
         (sample_scheduled_handler
            {| scheduledTime := 1000; cron := "30 * * * *" |} ∅).1)
    = Some vown /\
    await (Promise_resolve
             (sample_scheduled_handler
                {| scheduledTime := 1000; cron := "30 * * * *" |} ∅).2)
    = Returns vres.
Proof.
  cbv zeta.
  assert (H := addModuleScheduledListener_order sample_scheduled_handler ∅
                 (register_all "scheduled" [registers_early] new_EventsModule)
                 empty_store [late_listener]
                 (register_all "scheduled" [late_listener]
                    (addModuleScheduledListener sample_scheduled_handler ∅
                       (register_all "scheduled" [registers_early]
                          new_EventsModule)
                       empty_store).1.2)
                 (Some 1000) (Some "30 * * * *") 1 empty_store).
  cbv zeta in H.
  assert (H1 : default []
                 (_listeners
                    (register_all "scheduled" [late_listener]
                       (addModuleScheduledListener sample_scheduled_handler ∅
                          (register_all "scheduled" [registers_early]
                             new_EventsModule)
                          empty_store).1.2) !! "scheduled")
               = default []
                   (_listeners
                      (addModuleScheduledListener sample_scheduled_handler ∅
                         (register_all "scheduled" [registers_early]
                            new_EventsModule)
                         empty_store).1.2 !! "scheduled")
                 ++ [late_listener]).
  { vm_compute. reflexivity. }
  assert (H2 : forall l,
            l ∈ default []
                  (_listeners
                     (register_all "scheduled" [registers_early]
                        new_EventsModule) !! "scheduled") ->
            thrown_by false
              (l (ScheduledView (default 1 (Some 1000))
                    (default EmptyString (Some "30 * * * *")))) = None).
  { intros l Hl. vm_compute in Hl.
    apply list_elem_of_singleton in Hl as ->. vm_compute. reflexivity. }
  destruct (H H1 H2) as (_ & _ & _ & Hcall & Hin).
  destruct (Hin eq_refl) as [_ Hvs].
  split; [vm_compute; reflexivity|]. split.
  - vm_compute in Hcall. vm_compute. exact Hcall.
  - apply Hvs. vm_compute. reflexivity.
Defined.

(** C9, as stated, fails: a listener registered before the adapter throws
    during its run; the handler is not called in that dispatch, and
    nothing is put on the task list of the event. *)
Lemma addModuleScheduledListener_not_reached :
  let that :=
    (addModuleScheduledListener noisy_scheduled_handler ∅
       (register_all "scheduled" [throws_at_once] new_EventsModule)
       empty_store).1.2 in
  let result := dispatchScheduled that None None 1 empty_store in
  _listeners that !! "scheduled"
  = Some [throws_at_once; module_scheduled_listener noisy_scheduled_handler ∅]
  /\
  result.1 = Throws boom /\
  trace result.2 = [ObsListener "scheduled" 0] /\
  waitUntilMap result.2 !! 0 = Some [].
Proof. repeat split. Qed.

(** ** The store stays fresh

    [fresh] holds of the empty store and is kept by everything the module
    and the holders of an event can do. *)

Lemma scheduled_listeners_frame event e ls :
  forall index s,
    let s' := (scheduled_listeners event e ls index s).1 in
    next_event s' = next_event s /\
    forall j, j <> event ->
      event_request s' !! j = event_request s !! j /\
      responseMap s' !! j = responseMap s !! j /\
      passThroughMap s' !! j = passThroughMap s !! j /\
      waitUntilMap s' !! j = waitUntilMap s !! j.
Proof.
  induction ls as [|l ls IH]; intros index s; cbv zeta; [done|]. simpl.
  set (s0 := log (ObsListener "scheduled" index) s).
  pose proof (run_actions_next_event false event (l e) s0) as Hn.
  pose proof (fun j Hj => run_actions_frame false event (l e) j Hj s0) as Hf.
  destruct (run_actions false event (l e) s0) as [s1 [err|]]; simpl in *.
  - split; [done|]. intros j Hj. by apply Hf.
  - destruct (IH (S index) s1) as [-> IHf]. split; [done|].
    intros j Hj. destruct (IHf j Hj) as (-> & -> & -> & ->). by apply Hf.
Qed.

Lemma dispatchScheduled_fresh this st cr now s :
  fresh s ->
  next_event (dispatchScheduled this st cr now s).2 = S (next_event s) /\
  fresh (dispatchScheduled this st cr now s).2.
Proof.
  intros Hf. rewrite dispatchScheduled_unfold. cbv zeta.
  destruct (scheduled_listeners_frame (next_event s)
              (ScheduledView (default now st) (default EmptyString cr))
              (default [] (_listeners this !! "scheduled")) 0
              (ScheduledEvent.new (default now st) (default EmptyString cr)
                 s).2) as [Hn Hfr].
  destruct (scheduled_listeners _ _ _ 0 _) as [s1 [err|]]; simpl in *.
  - split; [done|]. intros i Hi. rewrite Hn in Hi.
    destruct (Hfr i) as (-> & -> & -> & ->); [lia|].
    rewrite lookup_insert_ne by lia. apply Hf. lia.
  - split; [done|]. intros i Hi. rewrite Hn in Hi.
    destruct (Hfr i) as (-> & -> & -> & ->); [lia|].
    rewrite lookup_insert_ne by lia. apply Hf. lia.
Qed.

(** A holder of an event can only have an event that was allocated. *)
Lemma FetchEvent_methods_fresh event s :
  event < next_event s ->
  fresh s ->
  (forall p, fresh (FetchEvent.waitUntil event p s)) /\
  (forall r, fresh (FetchEvent.respondWith event r s)) /\
  fresh (FetchEvent.passThroughOnException event s).
Proof.
  intros Hlt Hf. split; [|split]; intros; intros i Hi; simpl in *;
    rewrite ?lookup_alter_ne, ?lookup_insert_ne by lia; by apply Hf.
Qed.

Lemma addEventListener_fresh type listener this s :
  fresh s -> fresh (addEventListener type listener this s).2.
Proof.
  intros Hf. unfold addEventListener. cbv zeta.
  destruct (_ !! type); simpl; by destruct (unrecognized type).
Qed.

(** ** The scenarios of the test suite *)

(** No listener and no upstream: the configuration error. *)
Example dispatchFetch_no_listener_no_upstream :
  (dispatchFetch sample_fetch new_EventsModule sample_request None
     empty_store).1.1
  = Throws no_upstream_error.
Proof. reflexivity. Qed.

(** No listener and an upstream: the upstream is asked, without "Host". *)
Example dispatchFetch_no_listener_upstream :
  let result :=
    dispatchFetch sample_fetch new_EventsModule sample_request
      (Some sample_upstream) empty_store in
  trace result.2
  = [ObsFetch {| url := "http://localhost:8787/"; method := "GET";
                 headers := [("Accept", "text/html")];
                 body := EmptyString |}] /\
  exists rw, result.1.1 = Returns rw /\ response rw = upstream_response.
Proof. split; [reflexivity|]. by eexists. Qed.

(** A listener that fails without granting pass-through: exactly its
    error, with or without upstream. *)
Example dispatchFetch_listener_throws :
  (dispatchFetch sample_fetch
     (register_all "fetch" [throws_at_once] new_EventsModule)
     sample_request (Some sample_upstream) empty_store).1.1 = Throws boom /\
  (dispatchFetch sample_fetch
     (register_all "fetch" [throws_at_once] new_EventsModule)
     sample_request None empty_store).1.1 = Throws boom.
Proof. split; reflexivity. Qed.

(** A module handler for fetch events answers through the adapter, and the
    task it registered through its context is in the accessor's result. *)
Example addModuleFetchListener_responds :
  let handler : ModuleFetchListener :=
    fun request _ =>
      ([CtxWaitUntil (Settles 4 (Fulfilled (VString (url request))))],
       Thenable (Settles 2 (Fulfilled ok_response))) in
  let result :=
    dispatchFetch sample_fetch
      (addModuleFetchListener handler ∅ new_EventsModule empty_store).1.2
      sample_request None empty_store in
  exists rw,
    result.1.1 = Returns rw /\ response rw = ok_response /\
    waitUntil rw 0 result.2 = Returns [VString "http://localhost:8787/"].
Proof. by eexists. Qed.

(** After a reset the registry is as new. *)
Example resetEventListeners_forgets :
  (dispatchFetch sample_fetch
     (resetEventListeners
        (register_all "fetch" [responder] new_EventsModule))
     sample_request None empty_store).1.1
  = Throws no_upstream_error.
Proof. reflexivity. Qed.

(** * Further facts *)

(** ** The turns of a fetch dispatch and the tasks they leave *)

Lemma turn_outcome_Quiet acts :
  turn_outcome acts = Quiet ->
  thrown_by true acts = None /\ response_set_by acts = None.
Proof.
  unfold turn_outcome. destruct (thrown_by true acts); [done|].
  destruct (response_set_by acts) as [p|]; [|done]. by destruct (await p).
Qed.

Lemma on_failure_exit event e s :
  (on_failure event e s).1 <> ExitHang /\
  forall r, (on_failure event e s).1 <> ExitReturn r.
Proof.
  unfold on_failure. destruct (passThrough_granted event s); [|done].
  by destruct (get_stack e).
Qed.

(** The whole loop, read off the calls of the listeners: the turns made
    are those of [turns_run], the tasks left on the event are theirs. *)
Lemma fetch_listeners_turns_run event ls :
  forall index s r,
    event_request s !! event = Some r ->
    responseMap s !! event = None ->
    waitUntilMap (fetch_listeners event ls index s).2 !! event
    = (fun ps => ps ++ fetch_tasks ls r) <$> waitUntilMap s !! event /\
    exists tr,
      trace (fetch_listeners event ls index s).2 = trace s ++ tr /\
      listener_calls "fetch" tr = seq index (length (turns_run ls r)).
Proof.
  unfold fetch_tasks.
  induction ls as [|l ls IH]; intros index s r Hr Hresp.
  { simpl. split.
    - destruct (waitUntilMap s !! event); simpl; [|done]. by rewrite app_nil_r.
    - exists []. by rewrite app_nil_r. }
  rewrite (fetch_listeners_cons_outcome event l ls index s r Hr Hresp).
  cbv zeta. cbn [turns_run]. cbv zeta.
  set (acts := l (FetchView r)).
  set (s1 := (run_actions true event acts (log (ObsListener "fetch" index) s)).1).
  assert (Hw1 : waitUntilMap s1 !! event
                = (fun ps => ps ++ tasks_of true acts)
                    <$> waitUntilMap s !! event).
  { subst s1. by rewrite run_actions_waitUntilMap. }
  assert (Hfail : forall err,
    waitUntilMap (on_failure event err s1).2 !! event
    = (fun ps => ps ++ flat_map (tasks_of true) [acts])
        <$> waitUntilMap s !! event /\
    exists tr,
      trace (on_failure event err s1).2 = trace s ++ tr /\
      listener_calls "fetch" tr = seq index 1).
  { intros err. split.
    - destruct (on_failure_frame event err s1) as (_ & _ & _ & _ & ->).
      rewrite Hw1. simpl. by rewrite app_nil_r.
    - apply failed_turn_trace. }
  assert (Hstop :
    waitUntilMap s1 !! event
    = (fun ps => ps ++ flat_map (tasks_of true) [acts])
        <$> waitUntilMap s !! event /\
    exists tr,
      trace s1 = trace s ++ tr /\
      listener_calls "fetch" tr = seq index 1).
  { split.
    - rewrite Hw1. simpl. by rewrite app_nil_r.
    - apply turn_trace. }
  destruct (turn_outcome acts) eqn:Eo; simpl; try done.
  destruct (turn_outcome_Quiet acts Eo) as [_ Hq].
  destruct (quiet_turn event l index s r Hr Hresp Hq) as (Hr1 & Hresp1 & Ht1).
  fold acts in Hr1, Hresp1, Ht1. fold s1 in Hr1, Hresp1, Ht1.
  destruct (IH (S index) s1 _ Hr1 Hresp1) as (Hw & tr & Htr & Hc).
  split.
  - rewrite Hw, Hw1. destruct (waitUntilMap s !! event); simpl; [|done].
    by rewrite <- app_assoc.
  - exists (ObsListener "fetch" index :: effects_of true acts ++ tr).
    split. { rewrite Htr, Ht1. by rewrite <- !app_assoc. }
    rewrite listener_calls_cons, listener_calls_app, listener_calls_effects.
    simpl. by rewrite Hc.
Qed.

(** The part of [dispatchFetch] after the loop changes no side table. *)
Lemma dispatchFetch_tail fetch this request upstreamUrl s :
  let s1 := (fetch_listeners (next_event s)
               (default [] (_listeners this !! "fetch")) 0
               (FetchEvent.new (Request_clone request) s).2).2 in
  let s' := (dispatchFetch fetch this request upstreamUrl s).2 in
  next_event s' = next_event s1 /\ event_request s' = event_request s1 /\
  responseMap s' = responseMap s1 /\ passThroughMap s' = passThroughMap s1 /\
  waitUntilMap s' = waitUntilMap s1.
Proof.
  cbv zeta. rewrite dispatchFetch_unfold. cbv zeta.
  destruct (fetch_listeners _ _ 0 _) as [[r|e| |] s1]; simpl; try done.
  destruct upstreamUrl; [|done]. by destruct (await _).
Qed.

(** The calls and the task list of a whole dispatch. *)
Lemma dispatchFetch_turns fetch this request upstreamUrl s :
  fresh s ->
  let ls := default [] (_listeners this !! "fetch") in
  let r0 := Request_clone request in
  let result := dispatchFetch fetch this request upstreamUrl s in
  listener_calls "fetch" (trace_since s result.2)
  = seq 0 (length (turns_run ls r0)) /\
  waitUntilMap result.2 !! next_event s = Some (fetch_tasks ls r0).
Proof.
  intros Hf ls r0 result.
  destruct (FetchEvent_new_fresh r0 s Hf) as (_ & Hr & Hresp & _ & Hw0 & Ht0).
  destruct (fetch_listeners_turns_run (next_event s) ls 0 _ r0 Hr Hresp)
    as (Hw & tr & Htr & Hc).
  rewrite Hw0 in Hw. simpl in Hw.
  destruct (dispatchFetch_tail fetch this request upstreamUrl s)
    as (_ & _ & _ & _ & Hsame).
  destruct (dispatchFetch_trace fetch this request upstreamUrl s)
    as (tr2 & Htr2 & Hc2).
  cbv zeta in Htr2, Hsame. fold ls r0 in Htr2, Hsame. fold result in Htr2, Hsame.
  rewrite Htr, Ht0, <- app_assoc in Htr2.
  rewrite (trace_since_app _ _ _ Htr2), listener_calls_app, Hc, Hc2, app_nil_r.
  split; [done|]. by rewrite Hsame.
Qed.

(** X1. Whatever way a fetch dispatch ends, the listeners called are those
    whose turn comes before or at the first turn that is not quiet, in
    order, and the task list of the event holds exactly the tasks these
    turns registered, in the order of registration, those of a turn that
    went on to throw included. The accessor of a returned response
    aggregates that list. *)
Theorem dispatchFetch_tasks_registered fetch this request upstreamUrl s :
  fresh s ->
  let ls := default [] (_listeners this !! "fetch") in
  let r0 := Request_clone request in
  let result := dispatchFetch fetch this request upstreamUrl s in
  listener_calls "fetch" (trace_since s result.2)
  = seq 0 (length (turns_run ls r0)) /\
  waitUntilMap result.2 !! next_event s = Some (fetch_tasks ls r0) /\
  forall rw, result.1.1 = Returns rw ->
    forall now, waitUntil rw now result.2 = Promise_all now (fetch_tasks ls r0).
Proof.
  intros Hf ls r0 result.
  destruct (dispatchFetch_turns fetch this request upstreamUrl s Hf)
    as [Hcalls Hlist].
  fold ls r0 result in Hcalls, Hlist.
  split; [done|]. split; [done|].
  intros rw Hrw now.
  destruct (dispatchFetch fetch this request upstreamUrl s)
    as [[res request'] s'] eqn:Ed.
  subst result. simpl in *. subst res.
  destruct (dispatchFetch_returns _ _ _ _ _ _ _ _ Ed) as [-> _].
  unfold await_waitUntil. by rewrite Hlist.
Qed.

(** At a concrete input: a listener registers a task and throws after
    pass-through was granted; the upstream answers and the accessor still
    yields the result of that task. *)
Lemma dispatchFetch_tasks_registered_witness :
  let result :=
    dispatchFetch sample_fetch
      (register_all "fetch" [grants_only; registers_then_throws; late_listener]
         new_EventsModule)
      sample_request (Some sample_upstream) empty_store in
  listener_calls "fetch" (trace_since empty_store result.2) = [0; 1] /\
  waitUntilMap result.2 !! 0 = Some [Settles 6 (Fulfilled (VNumber 7))] /\
  forall rw, result.1.1 = Returns rw ->
    forall now,
      waitUntil rw now result.2
      = Promise_all now [Settles 6 (Fulfilled (VNumber 7))].
Proof.
  exact (dispatchFetch_tasks_registered sample_fetch
           (register_all "fetch"
              [grants_only; registers_then_throws; late_listener]
              new_EventsModule)
           sample_request (Some sample_upstream) empty_store
           fresh_empty_store).
Defined.

(** ** How a fetch dispatch ends *)

Lemma listener_calls_tail type os :
  Forall (fun o => is_listener_call type o = None) os ->
  listener_calls type os = [].
Proof.
  unfold listener_calls. induction 1 as [|o os Ho _ IH]; [done|].
  change (omap (is_listener_call type) (o :: os))
    with (match is_listener_call type o with
          | Some i => i :: omap (is_listener_call type) os
          | None => omap (is_listener_call type) os
          end).
  by rewrite Ho.
Qed.

(** X2. The failure of a listener, when the stack of what it threw can be
    read. The listeners before it had quiet turns. Without a grant of
    pass-through, by that listener or one before it, the dispatch fails
    with exactly the error of the listener, the caller's request is
    untouched, nothing is logged and nothing is fetched. With a grant the
    stack is logged as a warning and the fallback decides: the
    configuration error without upstream, the outcome of the upstream
    fetch with one. In both cases no later listener is called. *)
Theorem dispatchFetch_failure_policy fetch this request upstreamUrl s
    k calls e stack :
  fresh s ->
  let ls := default [] (_listeners this !! "fetch") in
  let r0 := Request_clone request in
  (forall j acts, j < k -> turn_calls ls r0 j = Some acts ->
                  turn_outcome acts = Quiet) ->
  turn_calls ls r0 k = Some calls ->
  turn_outcome calls = Fails e ->
  get_stack e = inl stack ->
  let result := dispatchFetch fetch this request upstreamUrl s in
  listener_calls "fetch" (trace_since s result.2) = seq 0 (S k) /\
  if granted_after (take (S k) ls) r0 then
    ObsWarn stack ∈ trace_since s result.2 /\
    match upstreamUrl with
    | None => result.1.1 = Throws no_upstream_error /\ result.1.2 = request
    | Some _ =>
        ObsFetch (without_host request) ∈ trace_since s result.2 /\
        result.1.2 = without_host request /\
        match await (fetch (without_host request)) with
        | Returns r => exists rw, result.1.1 = Returns rw /\ response rw = r
        | Throws e' => result.1.1 = Throws e'
        | Hangs => result.1.1 = Hangs
        end
    end
  else
    result.1.1 = Throws e /\ result.1.2 = request /\
    Forall turn_obs (trace_since s result.2).
Proof.
  intros Hf ls r0 Hquiet Hk He Hst result.
  destruct (dispatchFetch_first_failure fetch this request upstreamUrl s k
              calls e Hf Hquiet Hk He) as (tr1 & Hc & Hobs & H).
  fold ls r0 result in H. rewrite Hst in H. unfold without_host.
  destruct (granted_after (take (S k) ls) r0).
  - destruct upstreamUrl as [u|].
    + destruct H as (H2 & H3 & H4). rewrite H3.
      split.
      { rewrite listener_calls_app, Hc, listener_calls_tail;
          [by rewrite app_nil_r|]. by repeat constructor. }
      split. { apply elem_of_app. right. apply list_elem_of_here. }
      split. { apply elem_of_app. right. apply list_elem_of_further,
                 list_elem_of_here. }
      done.
    + destruct H as (H1 & H2 & H3). rewrite H3.
      split.
      { rewrite listener_calls_app, Hc, listener_calls_tail;
          [by rewrite app_nil_r|]. by repeat constructor. }
      split; [|done]. apply elem_of_app. right. apply list_elem_of_here.
  - destruct H as (H1 & H2 & H3). by rewrite H3.
Qed.

(** At a concrete input: the first listener grants pass-through and stays
    quiet, the second registers a task and throws; the upstream answers. *)
Lemma dispatchFetch_failure_policy_witness :
  let result :=
    dispatchFetch sample_fetch
      (register_all "fetch" [grants_only; registers_then_throws; late_listener]
         new_EventsModule)
      sample_request (Some sample_upstream) empty_store in
  listener_calls "fetch" (trace_since empty_store result.2) = [0; 1] /\
  ObsWarn (VString "Error: boom") ∈ trace_since empty_store result.2 /\
  ObsFetch (without_host sample_request) ∈ trace_since empty_store result.2 /\
  result.1.2 = without_host sample_request /\
  exists rw, result.1.1 = Returns rw /\ response rw = upstream_response.
Proof.
  assert (H := dispatchFetch_failure_policy sample_fetch
                 (register_all "fetch"
                    [grants_only; registers_then_throws; late_listener]
                    new_EventsModule)
                 sample_request (Some sample_upstream) empty_store 1
                 (registers_then_throws (FetchView sample_request)) boom
                 (VString "Error: boom") fresh_empty_store).
  cbv zeta in H.
  assert (Hquiet : forall j acts, j < 1 ->
            turn_calls
              (default []
                 (_listeners
                    (register_all "fetch"
                       [grants_only; registers_then_throws; late_listener]
                       new_EventsModule) !! "fetch"))
              (Request_clone sample_request) j = Some acts ->
            turn_outcome acts = Quiet).
  { intros [|j] acts Hj Hc; [|lia]. vm_compute in Hc.
    injection Hc as <-. vm_compute. reflexivity. }
  specialize (H Hquiet).
  assert (Hk : turn_calls
              (default []
                 (_listeners
                    (register_all "fetch"
                       [grants_only; registers_then_throws; late_listener]
                       new_EventsModule) !! "fetch"))
              (Request_clone sample_request) 1
            = Some (registers_then_throws (FetchView sample_request))).
  { vm_compute. reflexivity. }
  specialize (H Hk).
  assert (Ho : turn_outcome (registers_then_throws (FetchView sample_request))
               = Fails boom).
  { vm_compute. reflexivity. }
  specialize (H Ho eq_refl).
  vm_compute in H. vm_compute. exact H.
Defined.

(** X3. A response that never settles: the dispatch never returns. No later
    listener is called, nothing is logged, and the fallback is not taken,
    whether or not pass-through was granted and an upstream configured. *)
Theorem dispatchFetch_pending_response fetch this request upstreamUrl s
    k calls :
  fresh s ->
  let ls := default [] (_listeners this !! "fetch") in
  let r0 := Request_clone request in
  (forall j acts, j < k -> turn_calls ls r0 j = Some acts ->
                  turn_outcome acts = Quiet) ->
  turn_calls ls r0 k = Some calls ->
  turn_outcome calls = Stalls ->
  let result := dispatchFetch fetch this request upstreamUrl s in
  result.1.1 = Hangs /\ result.1.2 = request /\
  listener_calls "fetch" (trace_since s result.2) = seq 0 (S k) /\
  Forall turn_obs (trace_since s result.2).
Proof.
  intros Hf ls r0 Hquiet Hk Ho result.
  destruct (FetchEvent_new_fresh r0 s Hf) as (_ & Hr & Hresp & _ & _ & Ht0).
  destruct (fetch_listeners_first_outcome (next_event s) ls k 0 _ _ calls
              Hr Hresp Hquiet Hk)
    as (s1 & tr1 & Htr1 & Hc1 & Hobs1 & _ & _ & _ & Heq).
  rewrite Ho in Heq. rewrite Ht0 in Htr1.
  subst result. rewrite dispatchFetch_unfold. cbv zeta.
  fold ls r0. rewrite Heq. simpl.
  rewrite (trace_since_app _ _ _ Htr1). done.
Qed.

Lemma dispatchFetch_pending_response_witness :
  (dispatchFetch sample_fetch
     (register_all "fetch" [never_responds; late_listener] new_EventsModule)
     sample_request (Some sample_upstream) empty_store).1.1 = Hangs.
Proof.
  assert (H := dispatchFetch_pending_response sample_fetch
                 (register_all "fetch" [never_responds; late_listener]
                    new_EventsModule)
                 sample_request (Some sample_upstream) empty_store 0
                 (never_responds (FetchView sample_request))
                 fresh_empty_store).
  cbv zeta in H.
  assert (Hquiet : forall j acts, j < 0 ->
            turn_calls
              (default []
                 (_listeners
                    (register_all "fetch" [never_responds; late_listener]
                       new_EventsModule) !! "fetch"))
              (Request_clone sample_request) j = Some acts ->
            turn_outcome acts = Quiet).
  { intros j acts Hj. lia. }
  specialize (H Hquiet).
  assert (Hk : turn_calls
              (default []
                 (_listeners
                    (register_all "fetch" [never_responds; late_listener]
                       new_EventsModule) !! "fetch"))
              (Request_clone sample_request) 0
            = Some (never_responds (FetchView sample_request))).
  { vm_compute. reflexivity. }
  specialize (H Hk).
  assert (Ho : turn_outcome (never_responds (FetchView sample_request))
               = Stalls).
  { vm_compute. reflexivity. }
  specialize (H Ho). exact (proj1 H).
Defined.

(** X4. Every listener has a quiet turn and an upstream is configured: every
    listener is called, in order, then the caller's request, its "host"
    header deleted, is fetched, and the dispatch ends as that fetch does: a
    failure of the transport is the failure of the dispatch, as it is. *)
Theorem dispatchFetch_falls_through fetch this request upstream s :
  fresh s ->
  let ls := default [] (_listeners this !! "fetch") in
  let r0 := Request_clone request in
  (forall j acts, turn_calls ls r0 j = Some acts ->
                  turn_outcome acts = Quiet) ->
  let result := dispatchFetch fetch this request (Some upstream) s in
  listener_calls "fetch" (trace_since s result.2) = seq 0 (length ls) /\
  (exists tr, Forall turn_obs tr /\
     trace_since s result.2 = tr ++ [ObsFetch (without_host request)]) /\
  result.1.2 = without_host request /\
  match await (fetch (without_host request)) with
  | Returns r => exists rw, result.1.1 = Returns rw /\ response rw = r
  | Throws e => result.1.1 = Throws e
  | Hangs => result.1.1 = Hangs
  end.
Proof.
  intros Hf ls r0 Hquiet result.
  destruct (FetchEvent_new_fresh r0 s Hf) as (_ & Hr & Hresp & _ & _ & Ht0).
  destruct (fetch_listeners_all_quiet (next_event s) ls 0 _ _ Hr Hresp Hquiet)
    as (s1 & tr & Hexit & Htr & Hc & Hobs).
  rewrite Ht0 in Htr.
  subst result. rewrite dispatchFetch_unfold. cbv zeta.
  fold ls r0. rewrite Hexit. unfold without_host.
  set (request' := Request_with_headers _ request).
  assert (Htrace : trace_since s (log (ObsFetch request') s1)
                   = tr ++ [ObsFetch request']).
  { apply trace_since_app. simpl. by rewrite Htr, <- app_assoc. }
  destruct (await (fetch request')) as [r|e|]; simpl; rewrite Htrace;
    (split; [by rewrite listener_calls_app, Hc, app_nil_r|]);
    (split; [by exists tr|]); (split; [done|]); [by eexists|done|done].
Qed.

(** At a concrete input: one quiet listener and an upstream that is down. *)
Lemma dispatchFetch_falls_through_witness :
  let result :=
    dispatchFetch failing_fetch
      (register_all "fetch" [quiet_listener] new_EventsModule)
      sample_request (Some sample_upstream) empty_store in
  listener_calls "fetch" (trace_since empty_store result.2) = [0] /\
  result.1.2 = without_host sample_request /\
  result.1.1 = Throws (VFetchError "ECONNREFUSED" "system").
Proof.
  assert (H := dispatchFetch_falls_through failing_fetch
                 (register_all "fetch" [quiet_listener] new_EventsModule)
                 sample_request sample_upstream empty_store
                 fresh_empty_store).
  cbv zeta in H.
  assert (Hquiet : forall j acts,
            turn_calls
              (default []
                 (_listeners
                    (register_all "fetch" [quiet_listener] new_EventsModule)
                    !! "fetch"))
              (Request_clone sample_request) j = Some acts ->
            turn_outcome acts = Quiet).
  { intros [|[|j]] acts Hc; vm_compute in Hc; [|done|done].
    injection Hc as <-. vm_compute. reflexivity. }
  destruct (H Hquiet) as (H1 & _ & H3 & H4).
  split; [exact H1|]. split; [exact H3|exact H4].
Defined.

(** ** The response slot *)

Lemma omap_none {A B} (f : A -> option B) (l : list A) :
  Forall (fun a => f a = None) l -> omap f l = [].
Proof.
  induction 1 as [|a l Ha _ IH]; [done|].
  change (omap f (a :: l))
    with (match f a with Some b => b :: omap f l | None => omap f l end).
  by rewrite Ha.
Qed.

(** The response left by a run that does not throw is the one of the
    last [respondWith] among its calls. *)
Lemma response_set_by_last before r after :
  thrown_by true (before ++ CallRespondWith r :: after) = None ->
  Forall (fun a => is_respondWith a = None) after ->
  response_set_by (before ++ CallRespondWith r :: after)
  = Some (Promise_resolve r).
Proof.
  intros Hno Hafter. unfold response_set_by.
  rewrite (thrown_by_None_executed _ _ Hno), omap_app.
  change (omap is_respondWith (CallRespondWith r :: after))
    with (Promise_resolve r :: omap is_respondWith after).
  rewrite (omap_none _ _ Hafter). apply last_snoc.
Qed.

(** X5. Setting a response overwrites the one set before: of the calls of
    [respondWith] in the turn of the first listener that responds, only
    the last one counts, and the dispatch returns what that one fulfils
    with. *)
Theorem dispatchFetch_last_response_wins fetch this request upstreamUrl s
    k before r after res :
  fresh s ->
  let ls := default [] (_listeners this !! "fetch") in
  let r0 := Request_clone request in
  (forall j acts, j < k -> turn_calls ls r0 j = Some acts ->
                  turn_outcome acts = Quiet) ->
  turn_calls ls r0 k = Some (before ++ CallRespondWith r :: after) ->
  thrown_by true (before ++ CallRespondWith r :: after) = None ->
  Forall (fun a => is_respondWith a = None) after ->
  await (Promise_resolve r) = Returns res ->
  let result := dispatchFetch fetch this request upstreamUrl s in
  (exists rw, result.1.1 = Returns rw /\ response rw = res) /\
  forall event r1 st,
    FetchEvent.respondWith event r (FetchEvent.respondWith event r1 st)
    = FetchEvent.respondWith event r st.
Proof.
  intros Hf ls r0 Hquiet Hk Hno Hafter Hres result. split.
  - destruct (FetchEvent_new_fresh r0 s Hf) as (_ & Hr & Hresp & _).
    destruct (fetch_listeners_first_outcome (next_event s) ls k 0 _ _ _
                Hr Hresp Hquiet Hk)
      as (s1 & tr1 & _ & _ & _ & _ & _ & _ & Heq).
    unfold turn_outcome in Heq.
    rewrite Hno, (response_set_by_last _ _ _ Hno Hafter), Hres in Heq.
    subst result. rewrite dispatchFetch_unfold. cbv zeta.
    fold ls r0. rewrite Heq. simpl. by eexists.
  - intros event r1 st.
    unfold FetchEvent.respondWith, set_responseMap. simpl.
    by rewrite insert_insert_eq.
Qed.

Lemma dispatchFetch_last_response_wins_witness :
  exists rw,
    (dispatchFetch sample_fetch
       (register_all "fetch" [responds_twice] new_EventsModule)
       sample_request None empty_store).1.1 = Returns rw /\
    response rw = ok_response.
Proof.
  assert (H := dispatchFetch_last_response_wins sample_fetch
                 (register_all "fetch" [responds_twice] new_EventsModule)
                 sample_request None empty_store 0
                 [CallRespondWith (Plain upstream_response); Effect "again"]
                 (Thenable (Settles 4 (Fulfilled ok_response))) []
                 ok_response fresh_empty_store).
  cbv zeta in H.
  assert (Hquiet : forall j acts, j < 0 ->
            turn_calls
              (default []
                 (_listeners
                    (register_all "fetch" [responds_twice] new_EventsModule)
                    !! "fetch"))
              (Request_clone sample_request) j = Some acts ->
            turn_outcome acts = Quiet).
  { intros j acts Hj. lia. }
  specialize (H Hquiet).
  assert (Hk : turn_calls
              (default []
                 (_listeners
                    (register_all "fetch" [responds_twice] new_EventsModule)
                    !! "fetch"))
              (Request_clone sample_request) 0
            = Some ([CallRespondWith (Plain upstream_response); Effect "again"]
                      ++ CallRespondWith
                           (Thenable (Settles 4 (Fulfilled ok_response)))
                         :: [])).
  { vm_compute. reflexivity. }
  specialize (H Hk eq_refl (Forall_nil_2 _) eq_refl).
  exact (proj1 H).
Defined.

(** ** The adapter for module-style fetch handlers *)

Lemma thrown_by_snoc_respondWith acts res :
  thrown_by true (acts ++ [CallRespondWith res]) = thrown_by true acts.
Proof.
  induction acts as [|a acts IH]; [done|]. simpl.
  by destruct (raises true a).
Qed.

(** The turn of the adapter is never quiet: the handler throws, or what
    it returned is set as the response and awaited. *)
Lemma module_fetch_listener_outcome handler environment r :
  turn_outcome (module_fetch_listener handler environment (FetchView r))
  = match thrown_by true
            (map fetch_ctx_action (handler r environment).1) with
    | Some e => Fails e
    | None =>
        match await (Promise_resolve (handler r environment).2) with
        | Returns x => Responds x
        | Throws e => Fails e
        | Hangs => Stalls
        end
    end.
Proof.
  unfold turn_outcome. simpl.
  destruct (handler r environment) as [calls res]. simpl.
  rewrite thrown_by_snoc_respondWith.
  destruct (thrown_by true (map fetch_ctx_action calls)) eqn:E; [done|].
  assert (Hno : thrown_by true
                  (map fetch_ctx_action calls ++ CallRespondWith res :: [])
                = None).
  { by rewrite thrown_by_snoc_respondWith. }
  by rewrite (response_set_by_last _ _ [] Hno (Forall_nil_2 _)).
Qed.

Lemma turns_run_stops (ls : list Listener) :
  forall k r l,
    ls !! k = Some l ->
    (forall r', turn_outcome (l (FetchView r')) <> Quiet) ->
    length (turns_run ls r) <= S k.
Proof.
  induction ls as [|l0 ls IH]; intros k r l Hl Hnq; [done|].
  cbn [turns_run]. cbv zeta. destruct k as [|k].
  - injection Hl as ->. simpl.
    destruct (turn_outcome (l (FetchView r))) eqn:E; simpl; try lia.
    by destruct (Hnq r).
  - simpl in Hl. simpl.
    destruct (turn_outcome (l0 (FetchView r))); simpl; try lia.
    specialize (IH k (request_after (l0 (FetchView r)) r) l Hl Hnq). lia.
Qed.

(** X6. A module-style fetch handler, adapted and registered, the listeners
    before it having quiet turns: the handler is handed the request of the
    event; when it returns, what it returned is the response of the
    dispatch: the value it fulfils with is returned, a rejection without
    a grant of pass-through is the failure of the dispatch, and a
    promise that never settles leaves the dispatch pending. *)
Theorem addModuleFetchListener_forwards fetch this request upstreamUrl s
    k handler environment :
  fresh s ->
  let ls := default [] (_listeners this !! "fetch") in
  let r0 := Request_clone request in
  (forall j acts, j < k -> turn_calls ls r0 j = Some acts ->
                  turn_outcome acts = Quiet) ->
  ls !! k = Some (module_fetch_listener handler environment) ->
  let seen := request_seen_after (take k ls) r0 in
  thrown_by true (map fetch_ctx_action (handler seen environment).1) = None ->
  let result := dispatchFetch fetch this request upstreamUrl s in
  match await (Promise_resolve (handler seen environment).2) with
  | Returns x =>
      (exists rw, result.1.1 = Returns rw /\ response rw = x) /\
      result.1.2 = request
  | Throws e =>
      granted_after (take (S k) ls) r0 = false -> result.1.1 = Throws e
  | Hangs => result.1.1 = Hangs
  end.
Proof.
  intros Hf ls r0 Hquiet Hl seen Hno result.
  assert (Hk : turn_calls ls r0 k
               = Some (module_fetch_listener handler environment
                         (FetchView seen))).
  { unfold turn_calls. unfold Listener in *. by rewrite Hl. }
  destruct (FetchEvent_new_fresh r0 s Hf) as (_ & Hr & Hresp & Hpt & _).
  destruct (fetch_listeners_first_outcome (next_event s) ls k 0 _ _ _
              Hr Hresp Hquiet Hk)
    as (s1 & tr1 & _ & _ & _ & Hg & _ & _ & Heq).
  rewrite module_fetch_listener_outcome, Hno in Heq.
  unfold passThrough_granted at 2 in Hg. rewrite Hpt in Hg. simpl in Hg.
  subst result. rewrite dispatchFetch_unfold. cbv zeta. fold ls r0.
  destruct (await (Promise_resolve (handler seen environment).2))
    as [x|e|]; rewrite Heq; simpl.
  - split; [by eexists|done].
  - intros Hng. unfold on_failure. by rewrite Hg, Hng.
  - done.
Qed.

Lemma addModuleFetchListener_forwards_witness :
  (exists rw,
     (dispatchFetch sample_fetch
        (addModuleFetchListener sample_fetch_handler ∅
           (register_all "fetch" [marks_request] new_EventsModule)
           empty_store).1.2
        sample_request None empty_store).1.1 = Returns rw /\
     response rw = ok_response) /\
  (dispatchFetch sample_fetch
     (addModuleFetchListener sample_fetch_handler ∅
        (register_all "fetch" [marks_request] new_EventsModule)
        empty_store).1.2
     sample_request None empty_store).1.2 = sample_request.
Proof.
  assert (H := addModuleFetchListener_forwards sample_fetch
                 (addModuleFetchListener sample_fetch_handler ∅
                    (register_all "fetch" [marks_request] new_EventsModule)
                    empty_store).1.2
                 sample_request None empty_store 1 sample_fetch_handler ∅
                 fresh_empty_store).
  cbv zeta in H.
  assert (Hquiet : forall j acts, j < 1 ->
            turn_calls
              (default []
                 (_listeners
                    (addModuleFetchListener sample_fetch_handler ∅
                       (register_all "fetch" [marks_request] new_EventsModule)
                       empty_store).1.2 !! "fetch"))
              (Request_clone sample_request) j = Some acts ->
            turn_outcome acts = Quiet).
  { intros [|j] acts Hj Hc; [|lia]. vm_compute in Hc.
    injection Hc as <-. vm_compute. reflexivity. }
  specialize (H Hquiet eq_refl eq_refl).
  exact H.
Defined.

(** X7. No listener registered after a module-style fetch handler is ever
    called, whatever the listeners before it and the handler do: the turn
    of the adapter always ends the loop. *)
Theorem module_fetch_listener_ends_loop fetch this request upstreamUrl s
    k handler environment :
  fresh s ->
  default [] (_listeners this !! "fetch") !! k
  = Some (module_fetch_listener handler environment) ->
  forall x,
    x ∈ listener_calls "fetch"
          (trace_since s (dispatchFetch fetch this request upstreamUrl s).2) ->
    x <= k.
Proof.
  intros Hf Hl x Hx.
  destruct (dispatchFetch_turns fetch this request upstreamUrl s Hf)
    as [Hcalls _].
  cbv zeta in Hcalls. rewrite Hcalls in Hx. apply elem_of_seq in Hx.
  pose proof (turns_run_stops _ k (Request_clone request) _ Hl) as Hlen.
  assert (Hle : length (turns_run (default [] (_listeners this !! "fetch"))
                          (Request_clone request)) <= S k).
  { apply Hlen. intros r'. rewrite module_fetch_listener_outcome.
    destruct (thrown_by true _); [done|]. by destruct (await _). }
  lia.
Qed.

Lemma module_fetch_listener_ends_loop_witness :
  Forall (fun x => x <= 0)
    (listener_calls "fetch"
       (trace_since empty_store
          (dispatchFetch sample_fetch
             (register_all "fetch" [late_listener]
                (addModuleFetchListener sample_fetch_handler ∅
                   new_EventsModule empty_store).1.2)
             sample_request None empty_store).2)).
Proof.
  apply Forall_forall.
  apply (module_fetch_listener_ends_loop sample_fetch
           (register_all "fetch" [late_listener]
              (addModuleFetchListener sample_fetch_handler ∅
                 new_EventsModule empty_store).1.2)
           sample_request None empty_store 0 sample_fetch_handler ∅
           fresh_empty_store).
  vm_compute. reflexivity.
Defined.

(** ** A scheduled listener that throws *)

Lemma scheduled_listeners_throw_tasks event e pre (l : Listener) post err :
  forall index s,
    (forall l', l' ∈ pre -> thrown_by false (l' e) = None) ->
    thrown_by false (l e) = Some err ->
    waitUntilMap (scheduled_listeners event e (pre ++ l :: post) index s).1
      !! event
    = (fun ps => ps ++ scheduled_tasks e pre ++ tasks_of false (l e))
        <$> waitUntilMap s !! event.
Proof.
  induction pre as [|l0 pre IH]; intros index s Hno Hl; simpl.
  - set (s0 := log (ObsListener "scheduled" index) s).
    pose proof (run_actions_thrown false event (l e) s0) as Ht.
    pose proof (run_actions_waitUntilMap false event (l e) s0) as Hw.
    destruct (run_actions false event (l e) s0) as [s1 o]. simpl in *.
    subst o. rewrite Hl. simpl. done.
  - set (s0 := log (ObsListener "scheduled" index) s).
    pose proof (run_actions_thrown false event (l0 e) s0) as Ht.
    pose proof (run_actions_waitUntilMap false event (l0 e) s0) as Hw.
    rewrite (Hno l0) in Ht by apply list_elem_of_here.
    destruct (run_actions false event (l0 e) s0) as [s1 o]. simpl in *.
    subst o. rewrite IH; [|intros l' Hl'; by apply Hno, list_elem_of_further
                          |done].
    rewrite Hw. destruct (waitUntilMap s !! event); simpl; [|done].
    by rewrite <- !app_assoc.
Qed.

(** X8. A scheduled listener that throws during its run, the listeners before
    it not throwing: the dispatch fails with exactly what was thrown, the
    listeners up to that one are called and none after it, and the tasks
    registered until then stay on the event and are never aggregated, so
    that even a task already rejected does not show in the result. *)
Theorem dispatchScheduled_listener_failure this st cr now s
    pre (l : Listener) post err :
  default [] (_listeners this !! "scheduled") = pre ++ l :: post ->
  let e := ScheduledView (default now st) (default EmptyString cr) in
  (forall l', l' ∈ pre -> thrown_by false (l' e) = None) ->
  thrown_by false (l e) = Some err ->
  let result := dispatchScheduled this st cr now s in
  result.1 = Throws err /\
  listener_calls "scheduled" (trace_since s result.2)
  = seq 0 (S (length pre)) /\
  waitUntilMap result.2 !! next_event s
  = Some (scheduled_tasks e pre ++ tasks_of false (l e)).
Proof.
  intros Hls e Hno Hl result. subst result.
  rewrite dispatchScheduled_unfold. cbv zeta. rewrite Hls. fold e.
  set (s0 := (ScheduledEvent.new (default now st) (default EmptyString cr) s).2).
  destruct (scheduled_listeners_throw (next_event s) e pre l post err 0 s0
              Hno Hl) as (Hthrown & tr & Htr & Hc).
  pose proof (scheduled_listeners_throw_tasks (next_event s) e pre l post err
                0 s0 Hno Hl) as Hw.
  destruct (scheduled_listeners (next_event s) e (pre ++ l :: post) 0 s0)
    as [s1 o]. simpl in *. subst o. simpl.
  split; [done|]. split.
  - by rewrite (trace_since_app s s1 tr Htr).
  - rewrite Hw, lookup_insert_eq. done.
Qed.

Lemma dispatchScheduled_listener_failure_witness :
  let result :=
    dispatchScheduled
      (register_all "scheduled"
         [registers_rejecting; registers_then_throws; late_listener]
         new_EventsModule)
      None None 10 empty_store in
  let e := ScheduledView 10 EmptyString in
  result.1 = Throws boom /\
  listener_calls "scheduled" (trace_since empty_store result.2) = seq 0 2 /\
  waitUntilMap result.2 !! 0
  = Some (scheduled_tasks e [registers_rejecting]
            ++ tasks_of false (registers_then_throws e)).
Proof.
  apply (dispatchScheduled_listener_failure
           (register_all "scheduled"
              [registers_rejecting; registers_then_throws; late_listener]
              new_EventsModule)
           None None 10 empty_store
           [registers_rejecting] registers_then_throws [late_listener] boom).
  - vm_compute. reflexivity.
  - intros l' Hl'. apply list_elem_of_singleton in Hl' as ->.
    vm_compute. reflexivity.
  - vm_compute. reflexivity.
Defined.

(** ** The registry and the properties of [Object.prototype] *)

Lemma Object_prototype_keys_unrecognized type :
  type ∈ Object_prototype_keys -> unrecognized type = true.
Proof.
  intros H.
  assert (Hall : Forall (fun key => unrecognized key = true)
                   Object_prototype_keys).
  { unfold Object_prototype_keys. repeat constructor. }
  by apply (proj1 (Forall_forall _ _) Hall).
Qed.

Lemma EventsModule_eta this : {| _listeners := _listeners this |} = this.
Proof. by destruct this. Qed.

(** X9. The registry never has an own property named like a property of
    [Object.prototype]: that holds of a new and of a reset module and is
    kept by every registration. So every registration under such a name
    fails in the same way: the warning is logged, the call throws a
    TypeError, and the registry is left exactly as it was. *)
Theorem addEventListener_prototype_keys this :
  prototype_free this ->
  prototype_free new_EventsModule /\
  prototype_free (resetEventListeners this) /\
  forall type listener s,
    let r := addEventListener type listener this s in
    prototype_free r.1.2 /\
    (type ∈ Object_prototype_keys ->
     r.1.1
     = Throws (TypeError "this._listeners[type].push is not a function") /\
     r.1.2 = this /\
     r.2 = log_warn (VString (invalid_type_message type)) s).
Proof.
  intros Hfree.
  split. { intros key _. apply lookup_empty. }
  split. { intros key _. apply lookup_empty. }
  intros type listener s r.
  destruct (decide (type ∈ Object_prototype_keys)) as [Hin|Hnot].
  - assert (Hr : r = (Throws (TypeError
                        "this._listeners[type].push is not a function"),
                      this, log_warn (VString (invalid_type_message type)) s)).
    { subst r. unfold addEventListener, has_property. cbv zeta.
      rewrite (Object_prototype_keys_unrecognized type Hin).
      rewrite (bool_decide_true (type ∈ Object_prototype_keys)) by done.
      rewrite orb_true_r. simpl. rewrite (Hfree type Hin).
      by rewrite EventsModule_eta. }
    rewrite Hr. simpl. split; [done|]. done.
  - split; [|done].
    destruct (addEventListener_appends type listener this s Hnot)
      as (_ & _ & Hother & _).
    intros key Hkey. fold r in Hother. rewrite Hother; [by apply Hfree|].
    by intros ->.
Qed.

Lemma addEventListener_prototype_keys_witness :
  let r :=
    addEventListener "constructor" quiet_listener
      (register_all "fetch" [responder] new_EventsModule) empty_store in
  prototype_free r.1.2 /\
  ("constructor" ∈ Object_prototype_keys ->
   r.1.1
   = Throws (TypeError "this._listeners[type].push is not a function") /\
   r.1.2 = register_all "fetch" [responder] new_EventsModule /\
   r.2 = log_warn (VString (invalid_type_message "constructor")) empty_store).
Proof.
  refine (proj2 (proj2 (addEventListener_prototype_keys
                          (register_all "fetch" [responder] new_EventsModule)
                          _))
            "constructor" quiet_listener empty_store).
  intros key Hkey. unfold Object_prototype_keys in Hkey.
  repeat (apply elem_of_cons in Hkey as [->|Hkey]; [vm_compute; reflexivity|]).
  by apply elem_of_nil in Hkey.
Defined.

Lemma register_all_appends type ls this :
  type ∉ Object_prototype_keys ->
  default [] (_listeners (register_all type ls this) !! type)
  = default [] (_listeners this !! type) ++ ls /\
  forall other, other <> type ->
    _listeners (register_all type ls this) !! other
    = _listeners this !! other.
Proof.
  intros Hnot. revert this. induction ls as [|l ls IH]; intros this.
  { simpl. by rewrite app_nil_r. }
  cbn [register_all].
  destruct (addEventListener_appends type l this empty_store Hnot)
    as (_ & Hl & Hother & _).
  cbv zeta in Hl, Hother.
  destruct (IH (addEventListener type l this empty_store).1.2) as [IH1 IH2].
  split.
  - rewrite IH1, Hl. simpl. by rewrite <- app_assoc.
  - intros other Hne. rewrite IH2 by done. by apply Hother.
Qed.

(** X10. Registrations under a tag that is not a property of
    [Object.prototype] add up in order: after registering the listeners of
    [ls] one after the other, the sequence of the tag is what it was
    followed by [ls], and the sequence of every other tag is as it was. *)
Theorem addEventListener_registration_order type ls this :
  type ∉ Object_prototype_keys ->
  default [] (_listeners (register_all type ls this) !! type)
  = default [] (_listeners this !! type) ++ ls /\
  forall other, other <> type ->
    _listeners (register_all type ls this) !! other
    = _listeners this !! other.
Proof. apply register_all_appends. Qed.

Lemma addEventListener_registration_order_witness :
  default []
    (_listeners
       (register_all "scheduled" [registers_early; late_listener]
          (register_all "scheduled" [registers_rejecting] new_EventsModule))
       !! "scheduled")
  = default []
      (_listeners
         (register_all "scheduled" [registers_rejecting] new_EventsModule)
         !! "scheduled")
    ++ [registers_early; late_listener].
Proof.
  refine (proj1 (addEventListener_registration_order "scheduled"
                   [registers_early; late_listener]
                   (register_all "scheduled" [registers_rejecting]
                      new_EventsModule) _)).
  intros Hin. unfold Object_prototype_keys in Hin.
  repeat (apply elem_of_cons in Hin as [Hin|Hin]; [discriminate Hin|]).
  by apply elem_of_nil in Hin.
Defined.

(** At a concrete input for [addEventListener_unrecognized]: a tag with a
    typing mistake. *)
Lemma addEventListener_unrecognized_witness :
  let r :=
    addEventListener "fecth" responder new_EventsModule empty_store in
  r.1.1 = Returns () /\
  trace r.2 = [ObsWarn (VString (invalid_type_message "fecth"))] /\
  _listeners r.1.2 !! "fecth" = Some [responder] /\
  (forall request upstreamUrl s0,
     dispatchFetch sample_fetch r.1.2 request upstreamUrl s0
     = dispatchFetch sample_fetch new_EventsModule request upstreamUrl s0) /\
  (forall st cr now s0,
     dispatchScheduled r.1.2 st cr now s0
     = dispatchScheduled new_EventsModule st cr now s0).
Proof.
  apply (addEventListener_unrecognized sample_fetch "fecth" responder
           new_EventsModule empty_store).
  - vm_compute. reflexivity.
  - intros Hin. unfold Object_prototype_keys in Hin.
    repeat (apply elem_of_cons in Hin as [Hin|Hin]; [discriminate Hin|]).
    by apply elem_of_nil in Hin.
Defined.

(** ** One event for each dispatch *)

Lemma dispatchScheduled_frame this st cr now s :
  forall j, j <> next_event s ->
    let s' := (dispatchScheduled this st cr now s).2 in
    event_request s' !! j = event_request s !! j /\
    responseMap s' !! j = responseMap s !! j /\
    passThroughMap s' !! j = passThroughMap s !! j /\
    waitUntilMap s' !! j = waitUntilMap s !! j.
Proof.
  intros j Hj. cbv zeta. rewrite dispatchScheduled_unfold. cbv zeta.
  destruct (scheduled_listeners_frame (next_event s)
              (ScheduledView (default now st) (default EmptyString cr))
              (default [] (_listeners this !! "scheduled")) 0
              (ScheduledEvent.new (default now st) (default EmptyString cr)
                 s).2) as [_ Hfr].
  destruct (Hfr j Hj) as (H1 & H2 & H3 & H4).
  destruct (scheduled_listeners _ _ _ 0 _) as [s1 [err|]]; simpl in *;
    rewrite H1, H2, H3, H4; by rewrite lookup_insert_ne.
Qed.

(** X12. A dispatch of either kind works on the side-table entries of the
    event it creates and on no other: by what the engine does and by the
    calls that listeners make on the event they are handed, the response
    slot, the pass-through flag and the task list of every event created
    before are left as they were, and the aggregate of the tasks of such
    an event is afterwards what it was before. *)
Theorem dispatch_leaves_earlier_events s event now :
  fresh s ->
  event < next_event s ->
  (forall fetch this request upstreamUrl,
     let s' := (dispatchFetch fetch this request upstreamUrl s).2 in
     responseMap s' !! event = responseMap s !! event /\
     passThroughMap s' !! event = passThroughMap s !! event /\
     waitUntilMap s' !! event = waitUntilMap s !! event /\
     await_waitUntil event now s' = await_waitUntil event now s) /\
  (forall this st cr now2,
     let s' := (dispatchScheduled this st cr now2 s).2 in
     responseMap s' !! event = responseMap s !! event /\
     passThroughMap s' !! event = passThroughMap s !! event /\
     waitUntilMap s' !! event = waitUntilMap s !! event /\
     await_waitUntil event now s' = await_waitUntil event now s).
Proof.
  intros Hf Hlt. assert (Hne : event <> next_event s) by lia. split.
  - intros fetch this request upstreamUrl s'.
    destruct (dispatchFetch_frame fetch this request upstreamUrl s Hf)
      as (_ & _ & Hfr).
    destruct (Hfr event Hne) as (_ & H2 & H3 & H4). fold s' in H2, H3, H4.
    unfold await_waitUntil. by rewrite H2, H3, H4.
  - intros this st cr now2 s'.
    destruct (dispatchScheduled_frame this st cr now2 s event Hne)
      as (_ & H2 & H3 & H4). fold s' in H2, H3, H4.
    unfold await_waitUntil. by rewrite H2, H3, H4.
Qed.

(** At a concrete input: after a fetch dispatch whose listener registered
    a task, a scheduled dispatch whose listener registers a task that
    rejects leaves the aggregate of the first event as it was. *)
Lemma dispatch_leaves_earlier_events_witness :
  let s1 :=
    (dispatchFetch sample_fetch
       (register_all "fetch" [responder] new_EventsModule)
       sample_request None empty_store).2 in
  let s2 :=
    (dispatchScheduled
       (register_all "scheduled" [registers_rejecting] new_EventsModule)
       None None 5 s1).2 in
  responseMap s2 !! 0 = responseMap s1 !! 0 /\
  passThroughMap s2 !! 0 = passThroughMap s1 !! 0 /\
  waitUntilMap s2 !! 0 = waitUntilMap s1 !! 0 /\
  await_waitUntil 0 10 s2 = await_waitUntil 0 10 s1.
Proof.
  cbv zeta.
  refine (proj2 (dispatch_leaves_earlier_events
                   (dispatchFetch sample_fetch
                      (register_all "fetch" [responder] new_EventsModule)
                      sample_request None empty_store).2 0 10 _ _)
            (register_all "scheduled" [registers_rejecting] new_EventsModule)
            None None 5).
  - exact (proj1 (proj2 (dispatchFetch_frame sample_fetch
                           (register_all "fetch" [responder] new_EventsModule)
                           sample_request None empty_store
                           fresh_empty_store))).
  - vm_compute. lia.
Defined.

(** ** The task list of an event *)




(** ** Reset *)

(** X14. After [resetEventListeners] nothing that was registered is left, under
    any tag: a fetch dispatch calls no listener and goes to the fallback,
    a scheduled dispatch calls no listener and returns the empty array,
    and the listeners registered afterwards are the whole sequence of
    their tag. *)
Theorem resetEventListeners_forgets_all fetch this request upstreamUrl
    st cr now s type ls :
  let this' := resetEventListeners this in
  (forall tag, _listeners this' !! tag = None) /\
  listener_calls "fetch"
    (trace_since s (dispatchFetch fetch this' request upstreamUrl s).2) = [] /\
  (dispatchFetch fetch this' request None s).1.1 = Throws no_upstream_error /\
  dispatchScheduled this' st cr now s
  = (Returns [], (ScheduledEvent.new (default now st)
                    (default EmptyString cr) s).2) /\
  (type ∉ Object_prototype_keys ->
   default [] (_listeners (register_all type ls this') !! type) = ls).
Proof.
  cbv zeta. split; [|split; [|split; [|split]]].
  - intros tag. apply lookup_empty.
  - rewrite dispatchFetch_unfold. cbv zeta. simpl.
    destruct upstreamUrl as [u|]; simpl.
    + destruct (await (fetch _)); simpl;
        (rewrite (trace_since_app s _ [ObsFetch (without_host request)]);
         [done|reflexivity]).
    + rewrite (trace_since_app s _ []); [done|]. simpl. by rewrite app_nil_r.
  - by rewrite dispatchFetch_unfold.
  - rewrite dispatchScheduled_unfold. cbv zeta.
    unfold resetEventListeners. cbn [_listeners]. rewrite lookup_empty.
    simpl. unfold await_waitUntil. simpl. by rewrite lookup_insert_eq.
  - intros Hnot.
    destruct (register_all_appends type ls
                (resetEventListeners this) Hnot) as [H _].
    rewrite H. simpl. by rewrite lookup_empty.
Qed.
